(** * QCoin-Node: peer pool manager, reconnecting client and line framing

    A shallow embedding of
    - [src/Peer2peer/client/ClientManager.py] (class [Manager]),
    - [src/Peer2peer/client/Client.py] (class [Client]),
    - [p2ptest/p2p.py] (the newline-delimited JSON-RPC demo),
    together with the properties of the connection lifecycle and
    peer-failover subsystem that can be established on that code. *)

From Stdlib Require Import ZArith Lia.
From Equations Require Import Equations.
From stdpp Require Import gmap strings list.

Local Open Scope Z_scope.

(** ** The pool manager ([ClientManager.py]) *)

(** A peer is the tuple [(host_ip, host_port)]. *)
Definition PeerAddress : Type := string * Z.

Module Manager.

(** [self.peers] is a Python list, [self.active_clients] a dict keyed by
    the integer client id.  Every method body runs under [self.lock], so
    each method is one atomic state transformer. *)
Record t : Type := Build {
  peers : list PeerAddress;
  active_clients : gmap Z PeerAddress
}.

(** [Manager.__init__] *)
Definition init : t := {| peers := []; active_clients := ∅ |}.

(** [Manager.add_peer]: [self.peers.append((host_ip, host_port))]. *)
Definition add_peer (host_ip : string) (host_port : Z) (m : t) : t :=
  {| peers := peers m ++ [(host_ip, host_port)];
     active_clients := active_clients m |}.

(** [Manager.get_new_peer]: [None] when [self.peers] is empty, otherwise
    [self.peers.pop(0)] recorded under [client_id] and returned. *)
Definition get_new_peer (client_id : Z) (m : t) : option PeerAddress * t :=
  match peers m with
  | new_peer :: rest =>
      (Some new_peer,
       {| peers := rest;
          active_clients := <[client_id := new_peer]> (active_clients m) |})
  | [] => (None, m)
  end.

(** [Manager.handle_client_failure]: [del self.active_clients[client_id]]
    when the key is present, nothing otherwise. *)
Definition handle_client_failure (client_id : Z) (m : t) : t :=
  match active_clients m !! client_id with
  | Some _ =>
      {| peers := peers m;
         active_clients := delete client_id (active_clients m) |}
  | None => m
  end.

(** [list.remove(x)]: drops the first element equal to [x]. *)
Fixpoint list_remove_first (x : PeerAddress) (l : list PeerAddress)
  : list PeerAddress :=
  match l with
  | [] => []
  | y :: l' => if decide (y = x) then l' else y :: list_remove_first x l'
  end.

(** [Manager.remove_peer] *)
Definition remove_peer (host_ip : string) (host_port : Z) (m : t) : t :=
  let peer := (host_ip, host_port) in
  if decide (peer ∈ peers m)
  then {| peers := list_remove_first peer (peers m);
          active_clients := active_clients m |}
  else m.

(** The four mutating entry points, as a command language. *)
Inductive op : Type :=
| AddPeer (host_ip : string) (host_port : Z)
| GetNewPeer (client_id : Z)
| RemovePeer (host_ip : string) (host_port : Z)
| HandleClientFailure (client_id : Z).

Definition step (m : t) (o : op) : t :=
  match o with
  | AddPeer h p => add_peer h p m
  | GetNewPeer c => snd (get_new_peer c m)
  | RemovePeer h p => remove_peer h p m
  | HandleClientFailure c => handle_client_failure c m
  end.

Definition run (ops : list op) (m : t) : t := fold_left step ops m.

(** No two distinct clients hold the same address. *)
Definition exclusive (m : t) : Prop :=
  ∀ c1 c2 a,
    active_clients m !! c1 = Some a →
    active_clients m !! c2 = Some a → c1 = c2.

(** The address is currently handed out to some client. *)
Definition assigned (a : PeerAddress) (m : t) : Prop :=
  ∃ c, active_clients m !! c = Some a.

(** The address is known to the manager, in the pool or in the table. *)
Definition known (a : PeerAddress) (m : t) : bool :=
  bool_decide (a ∈ peers m)
  || bool_decide (a ∈ (map_to_list (active_clients m)).*2).

(** Every [AddPeer] of the script adds an address the manager does not
    hold at that moment. *)
Fixpoint adds_fresh (m : t) (ops : list op) : bool :=
  match ops with
  | [] => true
  | o :: ops' =>
      match o with
      | AddPeer h p => negb (known (h, p) m)
      | _ => true
      end && adds_fresh (step m o) ops'
  end.

(** Every address is held at most once, counting pool and table
    together. *)
Definition linear (m : t) : Prop :=
  NoDup (peers m)
  ∧ (∀ a, assigned a m → a ∉ peers m)
  ∧ exclusive m.

End Manager.

(** ** Text, bytes and JSON documents *)

(** A Python [str] is a sequence of code points, a [bytes] object a
    sequence of octets; both are lists of integers here. *)
Definition pystr : Type := list Z.
Definition bytes : Type := list Z.

(** Literals: the code points of an ASCII string constant. *)
Definition py (s : string) : pystr :=
  (λ a, Z.of_N (Ascii.N_of_ascii a)) <$> String.list_ascii_of_string s.

(** Exceptions the modelled code can meet. *)
Inductive exn : Type :=
| SocketError        (* socket.error / socket.timeout *)
| JSONDecodeError
| UnicodeError
| TypeError
| KeyError
| ValueError.

(** Result of a call that either returns or raises. *)
Inductive outcome (A : Type) : Type :=
| Return (a : A)
| Raise (e : exn).
Arguments Return {A} a.
Arguments Raise {A} e.

Module Utf8.

Definition is_cont (b : Z) : bool := (128 <=? b) && (b <? 192).

(** [bytes.decode('utf-8')] with the default strict error handler:
    shortest-form sequences only, no surrogates, nothing above
    U+10FFFF; [None] stands for [UnicodeDecodeError]. *)
Fixpoint decode (bs : bytes) : option pystr :=
  match bs with
  | [] => Some []
  | b0 :: t0 =>
      if (0 <=? b0) && (b0 <? 128) then cons b0 <$> decode t0
      else if (194 <=? b0) && (b0 <? 224) then
        match t0 with
        | b1 :: t1 =>
            if is_cont b1
            then cons ((b0 - 192) * 64 + (b1 - 128)) <$> decode t1
            else None
        | _ => None
        end
      else if (224 <=? b0) && (b0 <? 240) then
        match t0 with
        | b1 :: b2 :: t2 =>
            let c := (b0 - 224) * 4096 + (b1 - 128) * 64 + (b2 - 128) in
            if is_cont b1 && is_cont b2 && (2048 <=? c)
               && negb ((55296 <=? c) && (c <? 57344))
            then cons c <$> decode t2
            else None
        | _ => None
        end
      else if (240 <=? b0) && (b0 <? 245) then
        match t0 with
        | b1 :: b2 :: b3 :: t3 =>
            let c := (b0 - 240) * 262144 + (b1 - 128) * 4096
                     + (b2 - 128) * 64 + (b3 - 128) in
            if is_cont b1 && is_cont b2 && is_cont b3
               && (65536 <=? c) && (c <? 1114112)
            then cons c <$> decode t3
            else None
        | _ => None
        end
      else None
  end.

(** [str.encode('utf-8')]; [None] stands for [UnicodeEncodeError]
    (a lone surrogate). *)
Definition encode_char (c : Z) : option bytes :=
  if (0 <=? c) && (c <? 128) then Some [c]
  else if (128 <=? c) && (c <? 2048) then
    Some [192 + c / 64; 128 + c mod 64]
  else if (55296 <=? c) && (c <? 57344) then None
  else if (2048 <=? c) && (c <? 65536) then
    Some [224 + c / 4096; 128 + c / 64 mod 64; 128 + c mod 64]
  else if (65536 <=? c) && (c <? 1114112) then
    Some [240 + c / 262144; 128 + c / 4096 mod 64;
          128 + c / 64 mod 64; 128 + c mod 64]
  else None.

Fixpoint encode (s : pystr) : option bytes :=
  match s with
  | [] => Some []
  | c :: s' =>
      match encode_char c, encode s' with
      | Some b, Some bs => Some (b ++ bs)
      | _, _ => None
      end
  end.

(** Printable ASCII, the alphabet of [json.dumps] output. *)
Definition printable (c : Z) : Prop := 32 ≤ c ≤ 126.

End Utf8.

Module Json.

(** The values [json.loads] produces and [json.dumps] accepts: [None],
    [bool], [int], [str], [list] and [dict] with string keys (kept in
    insertion order).  Python floats are outside this model. *)
#[local] Unset Elimination Schemes.
Inductive t : Type :=
| JNull
| JBool (b : bool)
| JInt (n : Z)
| JStr (s : pystr)
| JArr (items : list t)
| JObj (members : list (pystr * t)).
#[local] Set Elimination Schemes.

(** Structural induction through the lists of items and members. *)
Section Induction.
Variable P : t → Prop.
Hypothesis Hnull : P JNull.
Hypothesis Hbool : ∀ b, P (JBool b).
Hypothesis Hint : ∀ n, P (JInt n).
Hypothesis Hstr : ∀ s, P (JStr s).
Hypothesis Harr : ∀ items, Forall P items → P (JArr items).
Hypothesis Hobj : ∀ members, Forall (λ kv, P (snd kv)) members → P (JObj members).

Fixpoint json_ind (v : t) : P v :=
  match v with
  | JNull => Hnull
  | JBool b => Hbool b
  | JInt n => Hint n
  | JStr s => Hstr s
  | JArr items =>
      Harr items
        ((fix go (l : list t) : Forall P l :=
            match l with
            | [] => List.Forall_nil P
            | x :: l' => @List.Forall_cons _ P x l' (json_ind x) (go l')
            end) items)
  | JObj members =>
      Hobj members
        ((fix go (l : list (pystr * t)) : Forall (λ kv, P (snd kv)) l :=
            match l with
            | [] => List.Forall_nil _
            | kv :: l' =>
                @List.Forall_cons _ (λ kv, P (snd kv)) kv l' (json_ind (snd kv)) (go l')
            end) members)
  end.
End Induction.

(** [d[k]], [None] standing for [KeyError]. *)
Fixpoint dict_get (k : pystr) (d : list (pystr * t)) : option t :=
  match d with
  | [] => None
  | (k', v) :: d' => if decide (k' = k) then Some v else dict_get k d'
  end.

(** [d[k] = v]: overwrite in place, or append a new key. *)
Fixpoint dict_set (k : pystr) (v : t) (d : list (pystr * t))
  : list (pystr * t) :=
  match d with
  | [] => [(k, v)]
  | (k', v') :: d' =>
      if decide (k' = k) then (k, v) :: d' else (k', v') :: dict_set k v d'
  end.

(** *** [json.dumps] with the default options
    ([ensure_ascii=True], separators [", "] and [": "]). *)

Definition hex_digit (n : Z) : Z := if n <? 10 then 48 + n else 87 + n.

(** ['\\u{0:04x}'.format(n)] *)
Definition u_escape (n : Z) : pystr :=
  [92; 117; hex_digit (n / 4096 mod 16); hex_digit (n / 256 mod 16);
   hex_digit (n / 16 mod 16); hex_digit (n mod 16)].

(** One character of [py_encode_basestring_ascii]: the short escapes,
    printable ASCII as it is, [\uXXXX] for the rest, a surrogate pair
    above the basic plane. *)
Definition escape_char (c : Z) : pystr :=
  if c =? 34 then [92; 34]
  else if c =? 92 then [92; 92]
  else if c =? 10 then [92; 110]
  else if c =? 13 then [92; 114]
  else if c =? 9 then [92; 116]
  else if c =? 8 then [92; 98]
  else if c =? 12 then [92; 102]
  else if (32 <=? c) && (c <=? 126) then [c]
  else if c <? 65536 then u_escape c
  else
    let n := c - 65536 in
    u_escape (Z.lor 55296 (Z.land (Z.shiftr n 10) 1023))
    ++ u_escape (Z.lor 56320 (Z.land n 1023)).

Definition encode_basestring_ascii (s : pystr) : pystr :=
  [34] ++ concat (escape_char <$> s) ++ [34].

(** Decimal digits of a non-negative integer, most significant first. *)
Fixpoint dec_digits (fuel : nat) (n : Z) (acc : pystr) : pystr :=
  match fuel with
  | O => acc
  | S fuel' =>
      let acc' := (48 + n mod 10) :: acc in
      if n <? 10 then acc' else dec_digits fuel' (n / 10) acc'
  end.

(** [int.__repr__] *)
Definition repr_int (n : Z) : pystr :=
  if n <? 0
  then 45 :: dec_digits (S (Z.to_nat (Z.log2 (- n)))) (- n) []
  else dec_digits (S (Z.to_nat (Z.log2 n))) n [].

(** [', '.join(parts)] *)
Fixpoint join_comma (parts : list pystr) : pystr :=
  match parts with
  | [] => []
  | [p] => p
  | p :: ps => p ++ [44; 32] ++ join_comma ps
  end.

Fixpoint dumps (v : t) : pystr :=
  match v with
  | JNull => py "null"
  | JBool true => py "true"
  | JBool false => py "false"
  | JInt n => repr_int n
  | JStr s => encode_basestring_ascii s
  | JArr items => [91] ++ join_comma (map dumps items) ++ [93]
  | JObj members =>
      [123]
      ++ join_comma
           (map (λ kv, encode_basestring_ascii (fst kv) ++ [58; 32]
                        ++ dumps (snd kv)) members)
      ++ [125]
  end.


(** *** [json.loads] on a [str]

    A model of the decoder of the standard library ([json.decoder],
    [json.scanner]) on float-free documents.  A number with a fraction
    or an exponent, [NaN] and [Infinity] would be Python floats: [loads]
    answers [None] on a document that holds one, as it does on a
    document Python rejects.  The development uses [loads] only on the
    output of [dumps]. *)

Definition is_ws (c : Z) : bool :=
  (c =? 32) || (c =? 9) || (c =? 10) || (c =? 13).

Fixpoint skip_ws (s : pystr) : pystr :=
  match s with
  | c :: s' => if is_ws c then skip_ws s' else s
  | [] => []
  end.

Definition is_digit (c : Z) : bool := (48 <=? c) && (c <=? 57).

Definition hex_value (c : Z) : option Z :=
  if is_digit c then Some (c - 48)
  else if (97 <=? c) && (c <=? 102) then Some (c - 87)
  else if (65 <=? c) && (c <=? 70) then Some (c - 55)
  else None.

(** [_decode_uXXXX]: four hexadecimal digits. *)
Definition hex4 (a b c d : Z) : option Z :=
  match hex_value a, hex_value b, hex_value c, hex_value d with
  | Some x3, Some x2, Some x1, Some x0 =>
      Some (x3 * 4096 + x2 * 256 + x1 * 16 + x0)
  | _, _, _, _ => None
  end.

(** The [BACKSLASH] table of the decoder. *)
Definition unescape (esc : Z) : option Z :=
  if esc =? 34 then Some 34
  else if esc =? 92 then Some 92
  else if esc =? 47 then Some 47
  else if esc =? 98 then Some 8
  else if esc =? 102 then Some 12
  else if esc =? 110 then Some 10
  else if esc =? 114 then Some 13
  else if esc =? 116 then Some 9
  else None.

Definition is_high_surrogate (u : Z) : bool := (55296 <=? u) && (u <=? 56319).
Definition is_low_surrogate (u : Z) : bool := (56320 <=? u) && (u <=? 57343).

Definition join_surrogates (u u2 : Z) : Z :=
  65536 + Z.lor (Z.shiftl (u - 55296) 10) (u2 - 56320).

Definition push (c : Z) (r : option (pystr * pystr)) : option (pystr * pystr) :=
  match r with
  | Some (chars, rest) => Some (c :: chars, rest)
  | None => None
  end.

(** [py_scanstring] in strict mode, entered after the opening quote:
    the string contents and the text after the closing quote. *)
Fixpoint scanstring (s : pystr) : option (pystr * pystr) :=
  match s with
  | [] => None
  | c :: s1 =>
      if c =? 34 then Some ([], s1)
      else if c =? 92 then
        match s1 with
        | [] => None
        | esc :: s2 =>
            if esc =? 117 then
              match s2 with
              | a :: b :: c' :: d :: s3 =>
                  match hex4 a b c' d with
                  | None => None
                  | Some uni =>
                      if is_high_surrogate uni then
                        match s3 with
                        | x :: y :: s4 =>
                            if (x =? 92) && (y =? 117) then
                              match s4 with
                              | a2 :: b2 :: c2 :: d2 :: s5 =>
                                  match hex4 a2 b2 c2 d2 with
                                  | None => None
                                  | Some uni2 =>
                                      if is_low_surrogate uni2
                                      then push (join_surrogates uni uni2)
                                             (scanstring s5)
                                      else push uni (scanstring s3)
                                  end
                              | _ => None
                              end
                            else push uni (scanstring s3)
                        | _ => push uni (scanstring s3)
                        end
                      else push uni (scanstring s3)
                  end
              | _ => None
              end
            else
              match unescape esc with
              | Some ch => push ch (scanstring s2)
              | None => None
              end
        end
      else if c <? 32 then None
      else push c (scanstring s1)
  end.

Fixpoint scan_digits (s : pystr) (acc : Z) : Z * pystr :=
  match s with
  | c :: s' =>
      if is_digit c then scan_digits s' (acc * 10 + (c - 48)) else (acc, s)
  | [] => (acc, [])
  end.

(** The integer part of [NUMBER_RE]: a lone [0], or a non-zero digit
    followed by digits. *)
Definition scan_natural (s : pystr) : option (Z * pystr) :=
  match s with
  | c :: s' =>
      if c =? 48 then Some (0, s')
      else if is_digit c then Some (scan_digits s' (c - 48))
      else None
  | [] => None
  end.

(** Whether the fraction or the exponent group of [NUMBER_RE] matches
    here (a dot and a digit; [e] or [E], an optional sign and a digit),
    which makes the number a float. *)
Definition float_tail (s : pystr) : bool :=
  match s with
  | c :: d :: r =>
      ((c =? 46) && is_digit d)
      || (((c =? 101) || (c =? 69))
          && (is_digit d
              || (((d =? 43) || (d =? 45))
                  && match r with d' :: _ => is_digit d' | [] => false end)))
  | _ => false
  end.

Definition scan_number (s : pystr) : option (t * pystr) :=
  let '(neg, s1) :=
    match s with
    | c :: s' => if c =? 45 then (true, s') else (false, s)
    | [] => (false, s)
    end in
  match scan_natural s1 with
  | Some (n, rest) =>
      if float_tail rest then None
      else Some (JInt (if neg then - n else n), rest)
  | None => None
  end.

Fixpoint strip_prefix (p s : pystr) : option pystr :=
  match p, s with
  | [], _ => Some s
  | a :: p', b :: s' => if a =? b then strip_prefix p' s' else None
  | _ :: _, [] => None
  end.

(** [dict(pairs)] *)
Definition dict_of_pairs (pairs : list (pystr * t)) : list (pystr * t) :=
  fold_left (λ d kv, dict_set (fst kv) (snd kv) d) pairs [].

(** [scan_once], [JSONArray] and [JSONObject].  [fuel] bounds the depth
    of the calls; [loads] supplies more than the text can use. *)
Fixpoint scan_once (fuel : nat) (s : pystr) : option (t * pystr) :=
  match fuel with
  | O => None
  | S fuel' =>
      match s with
      | [] => None
      | c :: s' =>
          if c =? 34 then
            match scanstring s' with
            | Some (str, rest) => Some (JStr str, rest)
            | None => None
            end
          else if c =? 123 then
            match skip_ws s' with
            | c1 :: s1 =>
                if c1 =? 125 then Some (JObj [], s1)
                else if c1 =? 34 then
                  match scan_members fuel' s1 with
                  | Some (pairs, rest) => Some (JObj (dict_of_pairs pairs), rest)
                  | None => None
                  end
                else None
            | [] => None
            end
          else if c =? 91 then
            match skip_ws s' with
            | c1 :: s1 =>
                if c1 =? 93 then Some (JArr [], s1)
                else
                  match scan_items fuel' (c1 :: s1) with
                  | Some (items, rest) => Some (JArr items, rest)
                  | None => None
                  end
            | [] => None
            end
          else
            match strip_prefix (py "null") s with
            | Some rest => Some (JNull, rest)
            | None =>
                match strip_prefix (py "true") s with
                | Some rest => Some (JBool true, rest)
                | None =>
                    match strip_prefix (py "false") s with
                    | Some rest => Some (JBool false, rest)
                    | None => scan_number s
                    end
                end
            end
      end
  end

(** The loop of [JSONArray], entered at the first character of an
    item. *)
with scan_items (fuel : nat) (s : pystr) : option (list t * pystr) :=
  match fuel with
  | O => None
  | S fuel' =>
      match scan_once fuel' s with
      | Some (value, rest) =>
          match skip_ws rest with
          | c :: s1 =>
              if c =? 93 then Some ([value], s1)
              else if c =? 44 then
                match scan_items fuel' (skip_ws s1) with
                | Some (values, rest') => Some (value :: values, rest')
                | None => None
                end
              else None
          | [] => None
          end
      | None => None
      end
  end

(** The loop of [JSONObject], entered after the opening quote of a
    key. *)
with scan_members (fuel : nat) (s : pystr)
  : option (list (pystr * t) * pystr) :=
  match fuel with
  | O => None
  | S fuel' =>
      match scanstring s with
      | Some (key, rest) =>
          match skip_ws rest with
          | c :: s1 =>
              if c =? 58 then
                match scan_once fuel' (skip_ws s1) with
                | Some (value, rest1) =>
                    match skip_ws rest1 with
                    | c2 :: s2 =>
                        if c2 =? 125 then Some ([(key, value)], s2)
                        else if c2 =? 44 then
                          match skip_ws s2 with
                          | c3 :: s3 =>
                              if c3 =? 34 then
                                match scan_members fuel' s3 with
                                | Some (pairs, rest') =>
                                    Some ((key, value) :: pairs, rest')
                                | None => None
                                end
                              else None
                          | [] => None
                          end
                        else None
                    | [] => None
                    end
                | None => None
                end
              else None
          | [] => None
          end
      | None => None
      end
  end.

(** [json.loads(s)] on a text: one document, white space around it,
    nothing else.  The model has no floats: a number written with a
    fraction or an exponent, which the library reads as a [float], makes
    [loads] answer [None] like a text the library rejects, so that what
    is proved of [loads] holds of the library on float-free texts. *)
Definition loads (s : pystr) : option t :=
  match scan_once (S (length s)) (skip_ws s) with
  | Some (v, rest) =>
      match skip_ws rest with
      | [] => Some v
      | _ :: _ => None
      end
  | None => None
  end.

(** Code points that are Unicode scalar values: what a [str] holds
    unless it was built from lone surrogates. *)
Definition scalar (c : Z) : Prop :=
  0 ≤ c < 1114112 ∧ ¬ (55296 ≤ c < 57344).

Definition wf_str (s : pystr) : Prop := Forall scalar s.

(** Documents whose strings hold scalar values and whose dictionaries
    have pairwise distinct keys. *)
Fixpoint wf (v : t) : Prop :=
  match v with
  | JNull | JBool _ | JInt _ => True
  | JStr s => wf_str s
  | JArr items => foldr (λ x P, wf x ∧ P) True items
  | JObj members =>
      NoDup (members.*1)
      ∧ foldr (λ kv P, wf_str (fst kv) ∧ wf (snd kv) ∧ P) True members
  end.

(** Notions used to state the round trip of [dumps] and [loads]. *)

(** What may follow a value inside the output of [dumps]: the end of the
    text, a comma, or a closing bracket or brace. *)
Definition follows (rest : pystr) : Prop :=
  match rest with
  | [] => True
  | c :: _ => c = 44 ∨ c = 93 ∨ c = 125
  end.

Definition digits_value (ds : pystr) (acc : Z) : Z :=
  fold_left (λ a d, a * 10 + (d - 48)) ds acc.

(** The characters a serialised value can start with. *)
Definition start_char (c : Z) : Prop :=
  c = 34 ∨ c = 123 ∨ c = 91 ∨ c = 110 ∨ c = 116 ∨ c = 102 ∨ c = 45
  ∨ is_digit c = true.

(** What the round trip of one value says. *)
Definition reads_back (v : t) : Prop :=
  ∀ fuel rest,
    (length (dumps v) ≤ fuel)%nat → follows rest →
    scan_once fuel (dumps v ++ rest) = Some (v, rest).

(** The text of one member of an object, as [dumps] writes it. *)
Definition member_text (kv : pystr * t) : pystr :=
  encode_basestring_ascii (fst kv) ++ [58; 32] ++ dumps (snd kv).

End Json.

(** ** The reconnecting client ([Client.py]) *)

Module Client.

(** The socket object made by [_initialize_socket]: a fresh TCP socket
    carrying the configured timeout. *)
Inductive socket : Type := NewSocket (timeout : Z).

(** The attributes of a [Client] instance.  [self.manager] is shared
    with the other clients and lives in the world below; [self.lock]
    only serialises the socket calls of one client. *)
Record t : Type := Build {
  host_ip : string;
  host_port : Z;
  timeout : Z;
  max_retries : Z;
  client_socket : option socket;
  connected : bool;
  client_id : Z
}.

(** [Client.__init__]; [cid] is the value of [id(self)]. *)
Definition init (cid : Z) (host_ip : string) (host_port : Z)
    (timeout max_retries : Z) : t :=
  {| host_ip := host_ip; host_port := host_port; timeout := timeout;
     max_retries := max_retries; client_socket := None;
     connected := false; client_id := cid |}.

Definition set_socket (s : option socket) (c : t) : t :=
  {| host_ip := host_ip c; host_port := host_port c; timeout := timeout c;
     max_retries := max_retries c; client_socket := s;
     connected := connected c; client_id := client_id c |}.

Definition set_connected (b : bool) (c : t) : t :=
  {| host_ip := host_ip c; host_port := host_port c; timeout := timeout c;
     max_retries := max_retries c; client_socket := client_socket c;
     connected := b; client_id := client_id c |}.

Definition set_host (a : PeerAddress) (c : t) : t :=
  {| host_ip := fst a; host_port := snd a; timeout := timeout c;
     max_retries := max_retries c; client_socket := client_socket c;
     connected := connected c; client_id := client_id c |}.

(** What the client does to the outside, in program order. *)
Inductive event : Type :=
| EConnect (target : PeerAddress) (ok : bool)      (* socket.connect *)
| EClose                                           (* socket.close *)
| ERequest (cid : Z) (granted : option PeerAddress) (* get_new_peer *)
| EFailure (cid : Z)                               (* handle_client_failure *)
| ESendall (data : bytes) (ok : bool)              (* socket.sendall *)
| ERecv (data : option bytes).                     (* socket.recv *)

(** The network: the result of every socket call, as a function of the
    number of socket calls made before it.  [connect] and [sendall]
    either succeed or raise [socket.error]/[socket.timeout]; [recv]
    returns bytes (none for an orderly shutdown by the peer) or
    raises. *)
Record net : Type := Net {
  connect_ok : nat → PeerAddress → bool;
  sendall_ok : nat → bytes → bool;
  recv_at : nat → option bytes
}.

(** Everything outside the client object: the shared manager, the
    number of socket calls so far and the events so far. *)
Record world : Type := World {
  manager : Manager.t;
  clock : nat;
  trace : list event
}.

Definition emit (e : event) (w : world) : world :=
  {| manager := manager w; clock := clock w; trace := trace w ++ [e] |}.

Definition tick (w : world) : world :=
  {| manager := manager w; clock := S (clock w); trace := trace w |}.

Definition set_manager (m : Manager.t) (w : world) : world :=
  {| manager := m; clock := clock w; trace := trace w |}.

Section Methods.

Variable N : net.
(** [json.loads] applied to a [bytes] object; [None] for a document
    it rejects. *)
Variable loads : bytes → option Json.t.

(** [Client._initialize_socket] *)
Definition _initialize_socket (c : t) : t :=
  set_socket (Some (NewSocket (timeout c))) c.

(** [Client.connect] *)
Definition connect (c : t) (w : world) : t * world :=
  let c := _initialize_socket c in
  let target := (host_ip c, host_port c) in
  let ok := connect_ok N (clock w) target in
  (set_connected ok c, emit (EConnect target ok) (tick w)).

(** [Client.close] *)
Definition close (c : t) (w : world) : t * world :=
  match client_socket c with
  | Some _ => (set_connected false c, emit EClose w)
  | None => (c, w)
  end.

(** [Client.notify_manager_failure] *)
Definition notify_manager_failure (c : t) (w : world) : t * world :=
  let w :=
    emit (EFailure (client_id c))
      (set_manager
         (Manager.handle_client_failure (client_id c) (manager w)) w) in
  close c w.

(** [Client.request_new_peer] *)
Definition request_new_peer (c : t) (w : world) : t * world :=
  let '(new_peer, m) := Manager.get_new_peer (client_id c) (manager w) in
  let w := emit (ERequest (client_id c) new_peer) (set_manager m w) in
  match new_peer with
  | Some a => (set_host a c, w)
  | None => notify_manager_failure c w
  end.

(** The [while retries < self.max_retries] loop of [Client.reconnect],
    by recursion on the number [max_retries - retries] of iterations
    still to run ([retries] grows by one per iteration and
    [max_retries] is never assigned). *)
Fixpoint reconnect_loop (remaining : nat) (c : t) (w : world)
  : bool * t * world :=
  match remaining with
  | O =>
      let '(c, w) := notify_manager_failure c w in (false, c, w)
  | S remaining' =>
      let '(c, w) := if connected c then close c w else (c, w) in
      let '(c, w) := connect c w in
      if connected c then (true, c, w)
      else
        let '(c, w) := request_new_peer c w in
        reconnect_loop remaining' c w
  end.

(** [Client.reconnect] *)
Definition reconnect (c : t) (w : world) : bool * t * world :=
  reconnect_loop (Z.to_nat (max_retries c)) c w.

(** The [try] block of [Client.send]: serialise, write, and on a
    socket error call [reconnect] and drop its result. *)
Definition send_try (data : Json.t) (c : t) (w : world)
  : outcome Json.t * t * world :=
  match Utf8.encode (Json.dumps data) with
  | None => (Raise UnicodeError, c, w)
  | Some serialized_data =>
      let ok := sendall_ok N (clock w) serialized_data in
      let w := emit (ESendall serialized_data ok) (tick w) in
      if ok then (Return Json.JNull, c, w)
      else
        let '(_, c, w) := reconnect c w in
        (Return Json.JNull, c, w)
  end.

(** [Client.send]; a Python function that falls off its end, or
    executes a bare [return], returns [None]. *)
Definition send (data : Json.t) (c : t) (w : world)
  : outcome Json.t * t * world :=
  if connected c then send_try data c w
  else
    let '(ok, c, w) := reconnect c w in
    if ok then send_try data c w
    else (Return Json.JNull, c, w).

(** The [try] block of [Client.receive]. *)
Definition receive_try (c : t) (w : world)
  : outcome Json.t * t * world :=
  let r := recv_at N (clock w) in
  let w := emit (ERecv r) (tick w) in
  match r with
  | Some data =>
      match loads data with
      | Some v => (Return v, c, w)
      | None => (Raise JSONDecodeError, c, w)
      end
  | None =>
      let '(_, c, w) := reconnect c w in
      (Return Json.JNull, c, w)
  end.

(** [Client.receive] *)
Definition receive (c : t) (w : world) : outcome Json.t * t * world :=
  if connected c then receive_try c w
  else
    let '(ok, c, w) := reconnect c w in
    if ok then receive_try c w
    else (Return Json.JNull, c, w).

End Methods.

(** Trace analysis. *)

Definition is_connect (e : event) : bool :=
  match e with EConnect _ _ => true | _ => false end.

Definition is_connect_to (a : PeerAddress) (e : event) : bool :=
  match e with EConnect a' _ => bool_decide (a' = a) | _ => false end.

Definition is_request (e : event) : bool :=
  match e with ERequest _ _ => true | _ => false end.

(** The events that precede the first replacement request. *)
Fixpoint before_first_request (tr : list event) : list event :=
  match tr with
  | [] => []
  | e :: tr' => if is_request e then [] else e :: before_first_request tr'
  end.

(** The events that follow the first replacement request. *)
Fixpoint after_first_request (tr : list event) : list event :=
  match tr with
  | [] => []
  | e :: tr' => if is_request e then tr' else after_first_request tr'
  end.

Definition is_recv (e : event) : bool :=
  match e with ERecv _ => true | _ => false end.

(** Socket reads and writes, as opposed to connection management. *)
Definition is_io (e : event) : bool :=
  match e with ERecv _ | ESendall _ _ => true | _ => false end.

(** What the successive [recv] calls of a trace returned. *)
Fixpoint recv_events (tr : list event) : list (option bytes) :=
  match tr with
  | [] => []
  | ERecv r :: tr' => r :: recv_events tr'
  | _ :: tr' => recv_events tr'
  end.

(** Number of events of a kind in a trace. *)
Fixpoint count (p : event → bool) (tr : list event) : nat :=
  match tr with
  | [] => 0
  | e :: tr' => (if p e then 1 else 0) + count p tr'
  end.

Definition count_connects : list event → nat := count is_connect.

Definition count_connects_to (a : PeerAddress) : list event → nat :=
  count (is_connect_to a).

Definition count_requests : list event → nat := count is_request.

Definition is_failed_connect (e : event) : bool :=
  match e with EConnect _ false => true | _ => false end.

(** Every failed connection attempt of the trace is directly followed
    by a request for a new peer made for client [cid]. *)
Fixpoint requests_follow_failures (cid : Z) (tr : list event) : bool :=
  match tr with
  | [] => true
  | EConnect _ false :: rest =>
      match rest with
      | ERequest cid' _ :: _ => bool_decide (cid' = cid)
      | _ => false
      end && requests_follow_failures cid rest
  | _ :: rest => requests_follow_failures cid rest
  end.

(** A world that has seen nothing yet. *)
Definition fresh_world (m : Manager.t) : world :=
  {| manager := m; clock := 0%nat; trace := [] |}.

(** Three networks: nothing works; connections open but every read and
    write on them fails; the very first socket call fails and everything
    after it works. *)
Definition dead_net : net :=
  {| connect_ok := λ _ _, false;
     sendall_ok := λ _ _, false;
     recv_at := λ _, None |}.

Definition broken_pipe_net : net :=
  {| connect_ok := λ _ _, true;
     sendall_ok := λ _ _, false;
     recv_at := λ _, None |}.

Definition late_net : net :=
  {| connect_ok := λ n _, bool_decide (n ≠ 0%nat);
     sendall_ok := λ n _, bool_decide (n ≠ 0%nat);
     recv_at := λ n, if bool_decide (n ≠ 0%nat) then Some [] else None |}.

(** [json.loads] on a [bytes] object: the bytes are decoded and the text
    is parsed.  The library first looks for a byte order mark or zero
    bytes at the start, which announce UTF-16 or UTF-32, and lets
    encoded surrogates through; the model takes the bytes for strict
    UTF-8 and so follows the library on UTF-8 input without a byte order
    mark, zero bytes or encoded surrogates, the empty input and the
    output of [json.dumps] included. *)
Definition loads_utf8 (data : bytes) : option Json.t :=
  match Utf8.decode data with
  | Some text => Json.loads text
  | None => None
  end.

(** A client that believes it is connected to [(host_ip, host_port)]. *)
Definition established (cid : Z) (host_ip : string) (host_port : Z)
    (timeout max_retries : Z) : t :=
  {| host_ip := host_ip; host_port := host_port; timeout := timeout;
     max_retries := max_retries;
     client_socket := Some (NewSocket timeout);
     connected := true; client_id := cid |}.

End Client.

(** ** The line-delimited JSON-RPC peer ([p2ptest/p2p.py]) *)

Module P2p.

(** The sending side of [peer_socket]: the payloads written so far and
    the number of [sendall] calls made, failed ones included. *)
Record socket : Type := Socket {
  sent : list bytes;
  writes : nat
}.

Definition fresh_socket : socket := {| sent := []; writes := 0%nat |}.

(** Computations that write to the socket and may raise. *)
Definition M (A : Type) : Type := socket → outcome A * socket.

Definition ret {A} (a : A) : M A := λ k, (Return a, k).

Definition raise {A} (e : exn) : M A := λ k, (Raise e, k).

Definition bind {A B} (f : A → M B) (m : M A) : M B :=
  λ k, match m k with
       | (Return a, k') => f a k'
       | (Raise e, k') => (Raise e, k')
       end.

#[global] Instance M_ret : MRet M := @ret.
#[global] Instance M_bind : MBind M := @bind.

(** [try: m  except Exception: h] *)
Definition try_except {A} (m : M A) (h : exn → M A) : M A :=
  λ k, match m k with
       | (Return a, k') => (Return a, k')
       | (Raise e, k') => h e k'
       end.

Definition lift {A} (e : exn) (o : option A) : M A :=
  match o with Some a => ret a | None => raise e end.

(** Python operators on decoded documents. *)

Fixpoint is_prefix (p s : pystr) : bool :=
  match p, s with
  | [], _ => true
  | a :: p', b :: s' => (a =? b) && is_prefix p' s'
  | _ :: _, [] => false
  end.

(** [sub in s] on two strings *)
Fixpoint is_substring (sub s : pystr) : bool :=
  is_prefix sub s
  || match s with
     | [] => false
     | _ :: s' => is_substring sub s'
     end.

(** [key in message] for a string [key]: a key of a dict, an element
    of a list, a substring of a string, [TypeError] otherwise. *)
Definition py_in (key : pystr) (message : Json.t) : outcome bool :=
  match message with
  | Json.JObj d => Return (bool_decide (key ∈ d.*1))
  | Json.JArr l =>
      Return (existsb
                (λ x, match x with
                      | Json.JStr s => bool_decide (s = key)
                      | _ => false
                      end) l)
  | Json.JStr s => Return (is_substring key s)
  | _ => Raise TypeError
  end.

(** [message[key]] for a string [key]: [KeyError] on a dict without
    the key, [TypeError] on every other type. *)
Definition py_getitem (message : Json.t) (key : pystr) : outcome Json.t :=
  match message with
  | Json.JObj d =>
      match Json.dict_get key d with
      | Some v => Return v
      | None => Raise KeyError
      end
  | _ => Raise TypeError
  end.

(** [x + 1]: defined on [int] and [bool]. *)
Definition py_add_one (x : Json.t) : outcome Json.t :=
  match x with
  | Json.JInt n => Return (Json.JInt (n + 1))
  | Json.JBool b => Return (Json.JInt ((if b then 1 else 0) + 1))
  | _ => Raise TypeError
  end.

(** [x == 'echo'] and the like *)
Definition py_eq_str (x : Json.t) (s : pystr) : bool :=
  match x with
  | Json.JStr s' => bool_decide (s' = s)
  | _ => false
  end.

Definition eval {A} (o : outcome A) : M A :=
  match o with Return a => ret a | Raise e => raise e end.

(** The request built by [send_hello_world]. *)
Definition hello_world (request_id : Json.t) : Json.t :=
  Json.JObj [(py "jsonrpc", Json.JStr (py "2.0"));
             (py "method", Json.JStr (py "echo"));
             (py "params", Json.JStr (py "hello world"));
             (py "id", request_id)].

(** A JSON-RPC request: the dict with the keys [jsonrpc], [method],
    [params] and [id], in the order [send_hello_world] writes them. *)
Definition request (method : pystr) (params id : Json.t) : Json.t :=
  Json.JObj [(py "jsonrpc", Json.JStr (py "2.0"));
             (py "method", Json.JStr method);
             (py "params", params);
             (py "id", id)].

(** The codec of the demo: [json.dumps(message) + '\n']. *)
Definition frame (message : Json.t) : pystr := Json.dumps message ++ [10].

Definition error_response : Json.t :=
  Json.JObj [(py "jsonrpc", Json.JStr (py "2.0"));
             (py "error",
              Json.JObj [(py "code", Json.JInt (-32600));
                         (py "message", Json.JStr (py "Invalid Request"))]);
             (py "id", Json.JNull)].

Definition method_not_found (request_id : Json.t) : Json.t :=
  Json.JObj [(py "jsonrpc", Json.JStr (py "2.0"));
             (py "id", request_id);
             (py "error",
              Json.JObj [(py "code", Json.JInt (-32601));
                         (py "message", Json.JStr (py "Method not found"))])].

Definition echo_response (request_id params : Json.t) : Json.t :=
  Json.JObj [(py "jsonrpc", Json.JStr (py "2.0"));
             (py "id", request_id);
             (py "result", params)].

(** [buffer.split('\n', 1)] when ['\n' in buffer], [None] otherwise. *)
Fixpoint split_newline (buffer : pystr) : option (pystr * pystr) :=
  match buffer with
  | [] => None
  | c :: buffer' =>
      if c =? 10 then Some ([], buffer')
      else
        match split_newline buffer' with
        | Some (message, rest) => Some (c :: message, rest)
        | None => None
        end
  end.

(** The text received so far, cut at the newlines: the complete lines,
    and the unfinished line after the last newline. *)
Fixpoint lines_of (text : pystr) : list pystr * pystr :=
  match text with
  | [] => ([], [])
  | c :: text' =>
      let '(lines, tail) := lines_of text' in
      if c =? 10 then ([] :: lines, tail)
      else
        match lines with
        | [] => ([], c :: tail)
        | line :: lines' => ((c :: line) :: lines', tail)
        end
  end.

(** How a run of the receive loop ends: still blocked in [recv] when
    the scripted reads are used up, left by [break] on an empty read,
    or left by the [except] clause. *)
(** The message shapes the specification names: a request is an
    object with the members [id], [method] and [params]; a response is
    an object with [id] and one of [result] and [error]. *)
Definition has_member (key : pystr) (message : Json.t) : bool :=
  match message with
  | Json.JObj d => bool_decide (key ∈ d.*1)
  | _ => false
  end.

Definition request_shape (message : Json.t) : bool :=
  has_member (py "id") message && has_member (py "method") message
  && has_member (py "params") message.

Definition response_shape (message : Json.t) : bool :=
  has_member (py "id") message
  && (has_member (py "result") message || has_member (py "error") message).

(** A word occurs in a document: as a key of an object, as an element
    of a list, or as a part of a string. *)
Definition occurs (word : pystr) (message : Json.t) : bool :=
  match message with
  | Json.JObj d => bool_decide (word ∈ d.*1)
  | Json.JArr l =>
      existsb (λ x, match x with
                    | Json.JStr s => bool_decide (s = word)
                    | _ => false
                    end) l
  | Json.JStr s => is_substring word s
  | _ => false
  end.

Inductive status : Type :=
| Waiting
| PeerClosed
| Aborted (e : exn).

Section Peer.

(** Whether the [n]-th [sendall] on the socket succeeds. *)
Variable wire : nat → bool.
(** [json.loads] *)
Variable loads : pystr → option Json.t.

(** [peer_socket.sendall(data)] *)
Definition sendall (data : bytes) : M unit :=
  λ k, if wire (writes k)
       then (Return (), {| sent := sent k ++ [data]; writes := S (writes k) |})
       else (Raise SocketError, {| sent := sent k; writes := S (writes k) |}).

(** [peer_socket.sendall(text.encode('utf-8'))] *)
Definition send_text (text : pystr) : M unit :=
  data ← lift UnicodeError (Utf8.encode text) ; sendall data.

(** [send_hello_world] *)
Definition send_hello_world (request_id : Json.t) : M unit :=
  send_text (frame (hello_world request_id)).

(** [print(label + f"{x}")] for a decoded document [x].  Standard
    output is taken to encode as UTF-8 with the strict error handler, so
    a surrogate in the text raises [UnicodeEncodeError] and everything
    else is written.  The text of a [str] is the string itself; the text
    of any other document is its [repr], in which the characters of a
    string that are not printable, surrogates among them, appear as
    escapes, so that only a [str] can make the call raise.  What is
    written to standard output is not recorded. *)
Definition py_print (label : pystr) (x : Json.t) : M unit :=
  match x with
  | Json.JStr s => _ ← lift UnicodeError (Utf8.encode (label ++ s)); ret ()
  | _ => ret ()
  end.

(** The request branch of [handle_json_rpc]. *)
Definition handle_request (message : Json.t) (peer_type : string)
  : M unit :=
  method ← eval (py_getitem message (py "method"));
  params ← eval (py_getitem message (py "params"));
  request_id ← eval (py_getitem message (py "id"));
  if py_eq_str method (py "echo") then
    py_print (py peer_type ++ py " received: ") params;;
    send_text (frame (echo_response request_id params));;
    if bool_decide (peer_type = "Server") then
      next_id ← eval (py_add_one request_id);
      send_hello_world next_id
    else ret ()
  else send_text (frame (method_not_found request_id)).

(** The response branch of [handle_json_rpc]. *)
Definition handle_response (message : Json.t) (peer_type : string)
  : M unit :=
  py_print (py peer_type ++ py " received response: ") message;;
  if bool_decide (peer_type = "Client") then
    id ← eval (py_getitem message (py "id"));
    next_id ← eval (py_add_one id);
    send_hello_world next_id
  else ret ().

(** ['method' in message and 'params' in message and 'id' in message] *)
Definition looks_like_request (message : Json.t) : M bool :=
  has_method ← eval (py_in (py "method") message);
  if has_method : bool then
    has_params ← eval (py_in (py "params") message);
    if has_params : bool then eval (py_in (py "id") message)
    else ret false
  else ret false.

(** ['result' in message or 'error' in message] *)
Definition looks_like_response (message : Json.t) : M bool :=
  has_result ← eval (py_in (py "result") message);
  if has_result : bool then ret true
  else eval (py_in (py "error") message).

(** A line the handler itself rejects: one that does not decode, or
    decodes to a document on which neither of the two membership tests
    of [handle_json_rpc] answers [True]. *)
Definition invalid_line (data : pystr) : Prop :=
  match loads data with
  | None => True
  | Some message =>
      ∀ k, fst (looks_like_request message k) ≠ Return true
           ∧ fst (looks_like_response message k) ≠ Return true
  end.

(** A line that does not decode, or decodes to a document that has
    neither of the two shapes of the specification and in which neither
    [result] nor [error] occurs. *)
Definition unrecognised_line (data : pystr) : Prop :=
  match loads data with
  | None => True
  | Some message =>
      request_shape message = false
      ∧ response_shape message = false
      ∧ occurs (py "result") message = false
      ∧ occurs (py "error") message = false
  end.

(** The [try] block of [handle_json_rpc] from its second statement
    on, [message] being the document [json.loads] returned. *)
Definition handle_message_try (message : Json.t) (peer_type : string)
  : M unit :=
  is_request ← looks_like_request message;
  if is_request : bool then handle_request message peer_type
  else
    is_response ← looks_like_response message;
    if is_response : bool then handle_response message peer_type
    else raise ValueError.

(** The [try] block of [handle_json_rpc]. *)
Definition handle_json_rpc_try (data : pystr) (peer_type : string)
  : M unit :=
  message ← lift JSONDecodeError (loads data);
  handle_message_try message peer_type.

(** [handle_json_rpc] *)
Definition handle_json_rpc (data : pystr) (peer_type : string) : M unit :=
  try_except (handle_json_rpc_try data peer_type)
             (λ _, send_text (frame error_response)).



Section Loop.

(** The callee of the inner loop, [handle_json_rpc] in the source. *)
Variable handle : pystr → M unit.

(** The inner loop of [handle_peer_connection]:
    [while '\n' in buffer: message, buffer = buffer.split('\n', 1);
    handle(message)].  Returns the buffer left over. *)
Equations? drain (buffer : pystr) (k : socket) : outcome pystr * socket
  by wf (length buffer) lt :=
  drain buffer k with Logic.inspect (split_newline buffer) := {
    | exist _ None _ => (Return buffer, k)
    | exist _ (Some (message, rest)) Hsplit with handle message k := {
        | (Return _, k') => drain rest k'
        | (Raise e, k') => (Raise e, k') } }.
Proof.
  clear drain. revert message rest Hsplit.
  induction buffer as [|c buffer IH]; intros message rest; simpl; [done|].
  destruct (c =? 10); [intros [= <- <-]; lia|].
  destruct (split_newline buffer) as [[m r]|]; [|done].
  intros [= <- <-]. specialize (IH _ _ eq_refl). lia.
Qed.

(** The outer loop, over the results of the successive
    [peer_socket.recv(1024)] calls ([None] when the call raises). *)
Fixpoint recv_loop (reads : list (option bytes)) (buffer : pystr)
    (k : socket) : status * pystr * socket :=
  match reads with
  | [] => (Waiting, buffer, k)
  | None :: _ => (Aborted SocketError, buffer, k)
  | Some raw :: reads' =>
      match Utf8.decode raw with
      | None => (Aborted UnicodeError, buffer, k)
      | Some [] => (PeerClosed, buffer, k)
      | Some data =>
          match drain (buffer ++ data) k with
          | (Return buffer', k') => recv_loop reads' buffer' k'
          | (Raise e, k') => (Aborted e, buffer ++ data, k')
          end
      end
  end.

(** Handling a list of lines one after the other, stopping at the
    first call that raises. *)
Fixpoint handle_each (lines : list pystr) : M unit :=
  match lines with
  | [] => ret ()
  | line :: lines' => handle line ;; handle_each lines'
  end.

End Loop.

(** [handle_peer_connection] *)
Definition handle_peer_connection (reads : list (option bytes))
    (peer_type : string) (k : socket) : status * pystr * socket :=
  recv_loop (λ message, handle_json_rpc message peer_type) reads [] k.

End Peer.





End P2p.

(** ** Scripts over the pool manager *)

Module ManagerScripts.
Import Manager.

(** How many times an address occurs in a pool. *)
Definition occurrences (a : PeerAddress) (pool : list PeerAddress) : nat :=
  length (filter (λ x, x = a) pool).

(** [get_new_peer] called once for each client of a list, in order. *)
Fixpoint allocate_all (client_ids : list Z) (m : t)
  : list (option PeerAddress) * t :=
  match client_ids with
  | [] => ([], m)
  | c :: cs =>
      let '(r, m1) := get_new_peer c m in
      let '(rs, m2) := allocate_all cs m1 in
      (r :: rs, m2)
  end.

(** The addresses a script passes to [add_peer]. *)
Definition added (ops : list op) : list PeerAddress :=
  omap (λ o, match o with AddPeer h p => Some (h, p) | _ => None end) ops.

End ManagerScripts.

(** ** Observations on client traces *)

Module ClientObs.
Import Client.

Definition is_sendall (e : event) : bool :=
  match e with ESendall _ _ => true | _ => false end.

(** The targets of the connection attempts of a trace, in order. *)
Fixpoint connect_targets (tr : list event) : list PeerAddress :=
  match tr with
  | [] => []
  | EConnect a _ :: tr' => a :: connect_targets tr'
  | _ :: tr' => connect_targets tr'
  end.

End ClientObs.

(** ** Observations on the peer socket *)

Module P2pObs.
Import P2p.

(** The socket after the payloads have been written one after the
    other. *)
Definition wrote (k : socket) (payloads : list bytes) : socket :=
  {| sent := sent k ++ payloads; writes := writes k + length payloads |}.

(** The socket after a [sendall] call that raised. *)
(** The decoded documents whose text standard output accepts: every
    document except a [str] that holds a surrogate. *)
Definition print_accepts (x : Json.t) : Prop :=
  match x with
  | Json.JStr s => Json.wf_str s
  | _ => True
  end.

Definition write_failed (k : socket) : socket :=
  {| sent := sent k; writes := S (writes k) |}.

End P2pObs.

(** * Properties *)

(** ** Pool manager *)

Module ManagerFacts.
Import Manager.

Lemma known_false a m :
  known a m = false ↔ (a ∉ peers m) ∧ ¬ assigned a m.
Proof.
  unfold known, assigned. rewrite orb_false_iff, !bool_decide_eq_false.
  split; intros [Hp Ht]; split; try done.
  - intros [c Hc]. apply Ht.
    apply list_elem_of_fmap. exists (c, a). split; [done|].
    by apply elem_of_map_to_list.
  - intros Hin. apply Ht.
    apply list_elem_of_fmap in Hin as [[c a'] [-> Hin]].
    exists c. by apply elem_of_map_to_list in Hin.
Qed.

Lemma list_remove_first_subseteq x l a :
  a ∈ list_remove_first x l → a ∈ l.
Proof.
  induction l as [|y l IH]; simpl; [done|].
  destruct (decide (y = x)); [by right|].
  intros [->|Hin]%elem_of_cons; [left | right; auto].
Qed.

Lemma list_remove_first_NoDup x l :
  NoDup l → NoDup (list_remove_first x l).
Proof.
  induction 1 as [|y l Hy Hl IH]; simpl; [constructor|].
  destruct (decide (y = x)); [done|].
  constructor; [|done].
  intros Hin. by apply Hy, (list_remove_first_subseteq x).
Qed.

Lemma linear_init : linear init.
Proof.
  unfold linear, assigned, exclusive, init. repeat split; simpl.
  - constructor.
  - intros a [c Hc]. by rewrite lookup_empty in Hc.
  - intros c1 c2 a Hc. by rewrite lookup_empty in Hc.
Qed.

Lemma linear_add_peer h p m :
  linear m → known (h, p) m = false → linear (add_peer h p m).
Proof.
  intros (Hnd & Hdisj & Hex) [Hp Ht]%known_false.
  repeat split; simpl; [| |done].
  - apply NoDup_app. repeat split; [done| |apply NoDup_singleton].
    intros a Ha ->%list_elem_of_singleton. done.
  - intros a Ha [Hin| ->%list_elem_of_singleton]%elem_of_app.
    + by apply (Hdisj a).
    + by apply Ht.
Qed.

Lemma linear_get_new_peer c m : linear m → linear (snd (get_new_peer c m)).
Proof.
  intros Hlin. unfold get_new_peer.
  destruct (peers m) as [|a rest] eqn:Hpeers; simpl; [done|].
  destruct Hlin as (Hnd & Hdisj & Hex). rewrite Hpeers in Hnd.
  apply NoDup_cons in Hnd as [Ha Hrest].
  assert (Hhead : ¬ assigned a m).
  { intros Has. apply (Hdisj a Has). rewrite Hpeers. by left. }
  repeat split; simpl; [done| |].
  - intros a' [c' Hc']. simpl in Hc'.
    destruct (decide (c = c')) as [->|Hne].
    + rewrite lookup_insert_eq in Hc'. by simplify_eq.
    + rewrite lookup_insert_ne in Hc' by done.
      intros Hin. apply (Hdisj a'); [by exists c'|].
      rewrite Hpeers. by right.
  - intros c1 c2 a' H1 H2. simpl in H1, H2.
    rewrite lookup_insert in H1, H2.
    repeat case_decide; simplify_eq; try done;
      try (exfalso; apply Hhead; by eexists).
    by apply (Hex c1 c2 a').
Qed.

Lemma linear_remove_peer h p m : linear m → linear (remove_peer h p m).
Proof.
  intros (Hnd & Hdisj & Hex). unfold remove_peer. simpl.
  case_decide; [|done].
  repeat split; simpl; [by apply list_remove_first_NoDup| |done].
  intros a Ha Hin%list_remove_first_subseteq. by apply (Hdisj a).
Qed.

Lemma linear_handle_client_failure c m :
  linear m → linear (handle_client_failure c m).
Proof.
  intros (Hnd & Hdisj & Hex). unfold handle_client_failure.
  destruct (active_clients m !! c) eqn:Hc; [|done].
  repeat split; simpl; [done| |].
  - intros a [c' Hc']. simpl in Hc'. apply (Hdisj a). exists c'.
    by apply lookup_delete_Some in Hc' as [_ ?].
  - intros c1 c2 a H1 H2. simpl in H1, H2.
    apply lookup_delete_Some in H1 as [_ H1].
    apply lookup_delete_Some in H2 as [_ H2].
    by apply (Hex c1 c2 a).
Qed.

Lemma linear_run ops m :
  linear m → adds_fresh m ops = true → linear (run ops m).
Proof.
  revert m. induction ops as [|o ops IH]; intros m Hlin Hfresh; [done|].
  simpl in *. apply andb_true_iff in Hfresh as [Ho Hops].
  apply IH; [|done].
  destruct o; simpl.
  - apply linear_add_peer; [done|]. by apply negb_true_iff.
  - by apply linear_get_new_peer.
  - by apply linear_remove_peer.
  - by apply linear_handle_client_failure.
Qed.

(** The state of Scenario A of the specification. *)
Example scenario_A :
  get_new_peer 1 (run [AddPeer "A" 1; AddPeer "B" 2] init)
  = (Some ("A", 1),
     {| peers := [("B", 2)]; active_clients := {[ 1 := ("A", 1) ]} |}).
Proof. reflexivity. Qed.

(** C2, as stated, fails: the pool may hold an address twice, and
    then two clients are handed the same address. *)
Lemma exclusive_allocation_fails :
  ¬ exclusive
      (run [AddPeer "A" 1; AddPeer "A" 1; GetNewPeer 1; GetNewPeer 2] init).
Proof.
  intros Hex. specialize (Hex 1 2 ("A", 1)).
  assert (1 = 2) as Heq by (apply Hex; reflexivity).
  discriminate Heq.
Qed.

(** C2 (amended): in every state reached from a fresh manager by
    [add_peer], [get_new_peer], [remove_peer] and
    [handle_client_failure] calls in which every [add_peer] adds an
    address that is, at that moment, neither in the pool nor assigned to
    a client, no two distinct client ids are mapped to the same
    address. *)
Theorem exclusive_allocation (ops : list op) :
  adds_fresh init ops = true → exclusive (run ops init).
Proof.
  intros Hfresh. by apply (linear_run ops init linear_init Hfresh).
Qed.

Lemma exclusive_allocation_witness :
  exclusive
    (run [AddPeer "A" 1; AddPeer "B" 2; GetNewPeer 1; RemovePeer "C" 3;
          GetNewPeer 2; HandleClientFailure 1; AddPeer "A" 1;
          GetNewPeer 1] init).
Proof. apply exclusive_allocation. vm_compute. reflexivity. Defined.

(** C3, as stated, fails: adding an address that is already in the
    pool changes the pool and leaves the address in it twice. *)
Lemma add_peer_duplicates :
  let m := run [AddPeer "A" 1] init in
  ("A", 1) ∈ peers m
  ∧ peers (add_peer "A" 1 m) ≠ peers m
  ∧ ¬ NoDup (peers (add_peer "A" 1 m)).
Proof.
  simpl. split; [by left|]. split; [discriminate|].
  intros Hnd. apply NoDup_cons in Hnd as [Hnin _]. apply Hnin. by left.
Qed.

(** C3 (amended): [add_peer(addr)] appends [addr] to the tail of the
    pool whether or not it is already present: the rest of the pool
    keeps its order, the pool grows by exactly one entry, the number of
    occurrences of [addr] grows by one, and the assignment table is
    unchanged. *)
Theorem add_peer_appends (h : string) (p : Z) (m : t) :
  peers (add_peer h p m) = peers m ++ [(h, p)]
  ∧ length (peers (add_peer h p m)) = S (length (peers m))
  ∧ length (filter (λ a, a = (h, p)) (peers (add_peer h p m)))
    = S (length (filter (λ a, a = (h, p)) (peers m)))
  ∧ active_clients (add_peer h p m) = active_clients m.
Proof.
  simpl. repeat split.
  - rewrite length_app. simpl. lia.
  - rewrite filter_app, length_app. simpl.
    rewrite filter_cons_True by done. rewrite filter_nil. simpl.
    by rewrite Nat.add_1_r.
Qed.

(** C4: [get_new_peer] on an empty pool returns [None] and changes
    nothing; on a pool [head :: rest] it returns [head], leaves [rest]
    as the pool and maps the client to [head] in the table, overwriting
    an earlier entry and keeping every other one. *)
Theorem get_new_peer_pops_head (client_id : Z) (m : t) :
  match peers m with
  | [] => get_new_peer client_id m = (None, m)
  | head :: rest =>
      fst (get_new_peer client_id m) = Some head
      ∧ peers (snd (get_new_peer client_id m)) = rest
      ∧ active_clients (snd (get_new_peer client_id m))
        = <[client_id := head]> (active_clients m)
      ∧ active_clients (snd (get_new_peer client_id m)) !! client_id
        = Some head
  end.
Proof.
  unfold get_new_peer. destruct (peers m) as [|head rest]; [done|].
  simpl. do 3 (split; [done|]). apply lookup_insert_eq.
Qed.

(** C10, as stated, fails: the old address stays in the table when
    another client holds it too. *)
Lemma old_address_retained :
  let m := run [AddPeer "A" 1; AddPeer "A" 1; GetNewPeer 1; GetNewPeer 2;
                AddPeer "B" 2] init in
  active_clients m !! 1 = Some ("A", 1)
  ∧ peers m ≠ []
  ∧ (("A", 1) ∉ peers m)
  ∧ assigned ("A", 1) (snd (get_new_peer 1 m)).
Proof.
  simpl. split; [reflexivity|]. split; [discriminate|]. split.
  - intros [[=]|Hin%elem_of_nil]%elem_of_cons. done.
  - exists 2. reflexivity.
Qed.

(** C10 (amended): when [get_new_peer] is called for a client that
    holds [old] and the pool is [head :: rest], the client's entry
    becomes [head] and the pool becomes [rest]: [old] is not put back.
    If [old] was not in the pool it is not in the pool afterwards, and
    it is still in the table exactly when some other client holds it. *)
Theorem get_new_peer_drops_old (client_id : Z) (m : t)
    (old head : PeerAddress) (rest : list PeerAddress) :
  active_clients m !! client_id = Some old →
  peers m = head :: rest →
  let m' := snd (get_new_peer client_id m) in
  active_clients m' !! client_id = Some head
  ∧ peers m' = rest
  ∧ (old ∉ peers m →
     (old ∉ peers m')
     ∧ (assigned old m'
        ↔ ∃ c, c ≠ client_id ∧ active_clients m !! c = Some old)).
Proof.
  intros Hold Hpeers. unfold get_new_peer. rewrite Hpeers. simpl.
  split; [apply lookup_insert_eq|]. split; [done|].
  intros Hnin. apply not_elem_of_cons in Hnin as [Hne Hrest].
  split; [done|]. unfold assigned. simpl. split.
  - intros [c Hc]. destruct (decide (client_id = c)) as [->|Hc'].
    + rewrite lookup_insert_eq in Hc. by simplify_eq.
    + rewrite lookup_insert_ne in Hc by done. by exists c.
  - intros (c & Hc & Hlook). exists c. by rewrite lookup_insert_ne.
Qed.

Lemma get_new_peer_drops_old_witness :
  let m := run [AddPeer "A" 1; GetNewPeer 7; AddPeer "B" 2] init in
  let m' := snd (get_new_peer 7 m) in
  active_clients m' !! 7 = Some ("B", 2)
  ∧ peers m' = []
  ∧ (("A", 1) ∉ peers m →
     (("A", 1) ∉ peers m')
     ∧ (assigned ("A", 1) m'
        ↔ ∃ c, c ≠ 7 ∧ active_clients m !! c = Some ("A", 1))).
Proof.
  apply (get_new_peer_drops_old 7 _ ("A", 1) ("B", 2) []); reflexivity.
Defined.

End ManagerFacts.

(** ** Text and JSON documents *)

Module Utf8Facts.
Import Utf8.

Lemma decode_ascii (bs : bytes) :
  Forall (λ b, 0 ≤ b < 128) bs → decode bs = Some bs.
Proof.
  induction 1 as [|b bs Hb _ IH]; [done|].
  simpl. rewrite IH.
  destruct (0 <=? b) eqn:E1; [|lia].
  destruct (b <? 128) eqn:E2; [done|lia].
Qed.

Lemma encode_ascii (s : pystr) :
  Forall (λ c, 0 ≤ c < 128) s → encode s = Some s.
Proof.
  induction 1 as [|c s Hc _ IH]; [done|].
  simpl. rewrite IH. unfold encode_char.
  destruct (0 <=? c) eqn:E1; [|lia].
  destruct (c <? 128) eqn:E2; [done|lia].
Qed.

Lemma printable_ascii (s : pystr) :
  Forall printable s → Forall (λ c, 0 ≤ c < 128) s.
Proof. intros Hs. eapply Forall_impl; [exact Hs|]. unfold printable. lia. Qed.

Lemma encode_printable (s : pystr) :
  Forall printable s → encode s = Some s.
Proof. intros Hs. by apply encode_ascii, printable_ascii. Qed.

Lemma printable_forallb (s : pystr) :
  forallb (λ c, (32 <=? c) && (c <=? 126)) s = true → Forall printable s.
Proof.
  induction s as [|c s IH]; simpl; [constructor|].
  intros [Hc Hs]%andb_true_iff. constructor; [|auto].
  unfold printable. lia.
Qed.

Lemma printable_not_newline (s : pystr) :
  Forall printable s → 10 ∉ s.
Proof.
  intros Hs Hin. rewrite Forall_forall in Hs.
  specialize (Hs 10 Hin). unfold printable in Hs. lia.
Qed.


Lemma encode_scalar (s : pystr) :
  Forall Json.scalar s → is_Some (encode s).
Proof.
  induction 1 as [|c s [Hrange Hsur] _ [bs IH]]; [by eexists|].
  simpl. rewrite IH. unfold encode_char.
  repeat match goal with
         | |- context [if ?b then _ else _] =>
             let E := fresh "E" in destruct b eqn:E
         end; try by eexists.
  all: lia.
Qed.


Lemma py_scalar (text : string) : Forall Json.scalar (py text).
Proof.
  unfold py. apply Forall_fmap, Forall_true. intros a. simpl.
  pose proof (Ascii.N_ascii_bounded a). unfold Json.scalar. lia.
Qed.

End Utf8Facts.

Module JsonFacts.
Import Json.

Lemma hex_digit_printable n : 0 ≤ n < 16 → Utf8.printable (hex_digit n).
Proof.
  intros Hn. unfold hex_digit, Utf8.printable.
  destruct (n <? 10) eqn:E; lia.
Qed.

Lemma u_escape_printable n : Forall Utf8.printable (u_escape n).
Proof.
  unfold u_escape.
  repeat (apply Forall_cons; split);
    try (apply hex_digit_printable; apply Z.mod_pos_bound; lia);
    try (unfold Utf8.printable; lia).
  constructor.
Qed.

Lemma escape_char_printable c : Forall Utf8.printable (escape_char c).
Proof.
  unfold escape_char.
  repeat match goal with
         | |- context [if ?b then _ else _] => destruct b eqn:?
         end;
    try (repeat (apply Forall_cons; split); [unfold Utf8.printable; lia..|constructor]).
  - apply u_escape_printable.
  - apply Forall_app. split; apply u_escape_printable.
Qed.

Lemma encode_basestring_ascii_printable s :
  Forall Utf8.printable (encode_basestring_ascii s).
Proof.
  unfold encode_basestring_ascii.
  apply Forall_app. split; [apply Forall_singleton; unfold Utf8.printable; lia|].
  apply Forall_app. split; [|apply Forall_singleton; unfold Utf8.printable; lia].
  induction s as [|c s IH]; simpl; [constructor|].
  apply Forall_app. split; [apply escape_char_printable | done].
Qed.

Lemma dec_digits_printable fuel n acc :
  Forall Utf8.printable acc → Forall Utf8.printable (dec_digits fuel n acc).
Proof.
  revert n acc. induction fuel as [|fuel IH]; intros n acc Hacc; simpl; [done|].
  assert (Utf8.printable (48 + n mod 10)).
  { unfold Utf8.printable. pose proof (Z.mod_pos_bound n 10). lia. }
  destruct (n <? 10); [by constructor|]. apply IH. by constructor.
Qed.

Lemma repr_int_printable n : Forall Utf8.printable (repr_int n).
Proof.
  unfold repr_int. destruct (n <? 0).
  - constructor; [unfold Utf8.printable; lia|].
    apply dec_digits_printable. constructor.
  - apply dec_digits_printable. constructor.
Qed.

Lemma join_comma_printable parts :
  Forall (Forall Utf8.printable) parts → Forall Utf8.printable (join_comma parts).
Proof.
  induction 1 as [|p ps Hp Hps IH]; simpl; [constructor|].
  destruct ps as [|q ps]; [done|].
  apply Forall_app. split; [done|].
  repeat (apply Forall_cons; split); try (unfold Utf8.printable; lia). done.
Qed.

(** [json.dumps] writes printable ASCII only. *)
Lemma dumps_printable v : Forall Utf8.printable (dumps v).
Proof.
  induction v as [|b|n|s|items IH|members IH] using json_ind.
  - by apply Utf8Facts.printable_forallb.
  - destruct b; by apply Utf8Facts.printable_forallb.
  - apply repr_int_printable.
  - apply encode_basestring_ascii_printable.
  - cbn [dumps]. apply Forall_app. split; [apply Forall_singleton; unfold Utf8.printable; lia|].
    apply Forall_app. split; [|apply Forall_singleton; unfold Utf8.printable; lia].
    apply join_comma_printable. by apply Forall_map.
  - cbn [dumps]. apply Forall_app. split; [apply Forall_singleton; unfold Utf8.printable; lia|].
    apply Forall_app. split; [|apply Forall_singleton; unfold Utf8.printable; lia].
    apply join_comma_printable. apply Forall_map.
    eapply Forall_impl; [exact IH|]. intros [k v] Hv. cbn [fst snd] in *.
    apply Forall_app. split; [apply encode_basestring_ascii_printable|].
    repeat (apply Forall_cons; split); try (unfold Utf8.printable; lia). done.
Qed.

Lemma encode_dumps v : Utf8.encode (dumps v) = Some (dumps v).
Proof. apply Utf8Facts.encode_printable, dumps_printable. Qed.

End JsonFacts.

(** ** Reconnecting client *)

Module ClientFacts.
Import Client.

Lemma count_app p tr1 tr2 :
  count p (tr1 ++ tr2) = (count p tr1 + count p tr2)%nat.
Proof. induction tr1 as [|e tr1 IH]; simpl; [done|]. rewrite IH. lia. Qed.

Lemma recv_events_app tr1 tr2 :
  recv_events (tr1 ++ tr2) = recv_events tr1 ++ recv_events tr2.
Proof.
  induction tr1 as [|e tr1 IH]; simpl; [done|].
  destruct e; simpl; by rewrite ?IH.
Qed.

Lemma recv_events_no_io tr : count is_io tr = 0%nat → recv_events tr = [].
Proof.
  induction tr as [|e tr IH]; simpl; [done|].
  destruct e; simpl; intros H; try discriminate; auto.
Qed.

Lemma before_first_request_app tr1 tr2 :
  count is_request tr1 = 0%nat →
  before_first_request (tr1 ++ tr2) = tr1 ++ before_first_request tr2.
Proof.
  induction tr1 as [|e tr1 IH]; simpl; [done|].
  destruct (is_request e); simpl; [discriminate|].
  intros H. by rewrite IH.
Qed.

(** Unfold the state updates and flatten the trace. *)
Ltac norm :=
  unfold notify_manager_failure, request_new_peer, close, connect,
    _initialize_socket, emit, tick, set_manager, set_connected, set_socket,
    set_host;
  simpl; rewrite <- ?app_assoc; simpl.

Section Reconnect.
Variable N : net.

(** [reconnect] only appends to the trace, never reads or writes on the
    socket, and makes at most one connection attempt per iteration. *)
Lemma reconnect_loop_extends k c w :
  ∃ tr, trace (reconnect_loop N k c w).2 = trace w ++ tr
        ∧ (count_connects tr ≤ k)%nat
        ∧ count is_io tr = 0%nat.
Proof.
  revert c w. induction k as [|k IH]; intros c w.
  - simpl. unfold notify_manager_failure, close.
    destruct (client_socket c); norm; eexists; (split; [reflexivity|]);
      simpl; split; reflexivity || lia.
  - simpl.
    destruct (connected c) eqn:Hconn; [unfold close at 1|];
      destruct (client_socket c) eqn:Hsock; unfold connect; simpl;
      destruct (connect_ok N (clock w) (host_ip c, host_port c)) eqn:Hok;
      simpl;
      try (norm; eexists; (split; [reflexivity|]); simpl;
           unfold count_connects; simpl; split; reflexivity || lia);
      unfold request_new_peer, Manager.get_new_peer; simpl;
      destruct (Manager.peers (manager w)) as [|a rest] eqn:Hpeers; simpl;
      match goal with
      | |- context [reconnect_loop N k ?c' ?w'] =>
          destruct (IH c' w') as (tr & Htr & Hc & Hi); rewrite Htr
      end;
      norm; eexists; (split; [reflexivity|]);
      unfold count_connects in *; simpl; split; lia.
Qed.

Lemma reconnect_extends c w :
  ∃ tr, trace (reconnect N c w).2 = trace w ++ tr
        ∧ (count_connects tr ≤ Z.to_nat (max_retries c))%nat
        ∧ count is_io tr = 0%nat.
Proof. apply reconnect_loop_extends. Qed.

(** The loop asks the manager for a new peer right after every failed
    connection attempt, and at no other moment. *)
Lemma reconnect_loop_requests k c w :
  ∃ tr, trace (reconnect_loop N k c w).2 = trace w ++ tr
        ∧ (count_connects tr ≤ k)%nat
        ∧ requests_follow_failures (client_id c) tr = true
        ∧ count_requests tr = count is_failed_connect tr.
Proof.
  revert c w. induction k as [|k IH]; intros c w.
  - simpl. unfold notify_manager_failure, close.
    destruct (client_socket c); norm; eexists; (split; [reflexivity|]);
      simpl; repeat split; reflexivity || lia.
  - simpl.
    destruct (connected c) eqn:Hconn; [unfold close at 1|];
      destruct (client_socket c) eqn:Hsock; unfold connect; simpl;
      destruct (connect_ok N (clock w) (host_ip c, host_port c)) eqn:Hok;
      simpl;
      try (norm; eexists; (split; [reflexivity|]); simpl;
           unfold count_connects, count_requests; simpl;
           repeat split; reflexivity || lia);
      unfold request_new_peer, Manager.get_new_peer; simpl;
      destruct (Manager.peers (manager w)) as [|a rest] eqn:Hpeers; simpl;
      match goal with
      | |- context [reconnect_loop N k ?c' ?w'] =>
          destruct (IH c' w') as (tr & Htr & Hc & Hf & Hr); rewrite Htr
      end;
      norm; eexists; (split; [reflexivity|]);
      unfold count_connects, count_requests in *; simpl in *;
      rewrite ?bool_decide_eq_true_2 by done; simpl;
      repeat split; try lia; done.
Qed.

End Reconnect.

(** Scenario B of the specification: [max_retries = 3], the target is
    unreachable and the pool is empty.  [reconnect] returns [False] and
    the client's entry is gone; it made three connection attempts and
    asked for a new peer after each of them. *)
Example scenario_B :
  let m := Manager.run [Manager.AddPeer "A" 1; Manager.GetNewPeer 7]
             Manager.init in
  let r := reconnect dead_net (init 7 "A" 1 10 3) (fresh_world m) in
  r.1.1 = false
  ∧ Manager.active_clients (manager r.2) !! 7 = None
  ∧ count_connects (trace r.2) = 3%nat
  ∧ count_requests (trace r.2) = 3%nat.
Proof. vm_compute. repeat split. Qed.

(** C1, as stated, fails: with [max_retries = 2] and a target that
    never accepts, the first replacement request comes after one
    connection attempt, not two. *)
Lemma retry_bound_fails :
  let c := init 7 "A" 1 10 2 in
  let tr := trace (reconnect dead_net c (fresh_world Manager.init)).2 in
  max_retries c = 2
  ∧ (∀ n, connect_ok dead_net n (host_ip c, host_port c) = false)
  ∧ count_connects_to ("A", 1) (before_first_request tr) ≠ 2%nat.
Proof. simpl. split; [done|]. split; [done|]. vm_compute. discriminate. Qed.

(** C1 (amended): with [max_retries = N ≥ 1] and a target whose connect
    attempt always fails, one invocation of [reconnect] makes exactly one
    connection attempt, against that target, before it first requests a
    replacement peer from the manager.  A replacement is requested after
    every failed attempt: each failed attempt of the invocation is
    directly followed by a request for this client, and there are as
    many requests as failed attempts.  The whole invocation makes at
    most [N] connection attempts. *)
Theorem reconnect_requests_after_one_attempt (N : net) (c : t) (w : world) :
  1 ≤ max_retries c →
  (∀ n, connect_ok N n (host_ip c, host_port c) = false) →
  ∃ tr, trace (reconnect N c w).2 = trace w ++ tr
        ∧ count_connects_to (host_ip c, host_port c)
            (before_first_request tr) = 1%nat
        ∧ count_connects (before_first_request tr) = 1%nat
        ∧ (1 ≤ count_requests tr)%nat
        ∧ requests_follow_failures (client_id c) tr = true
        ∧ count_requests tr = count is_failed_connect tr
        ∧ (count_connects tr ≤ Z.to_nat (max_retries c))%nat.
Proof.
  intros Hretries Hdead. unfold reconnect.
  destruct (Z.to_nat (max_retries c)) as [|k] eqn:Hk; [lia|].
  simpl.
  destruct (connected c) eqn:Hconn; [unfold close at 1|];
    destruct (client_socket c) eqn:Hsock; unfold connect;
    simpl; rewrite Hdead; simpl;
    unfold request_new_peer, Manager.get_new_peer; simpl;
    destruct (Manager.peers (manager w)) as [|a rest] eqn:Hpeers; simpl;
    match goal with
    | |- context [reconnect_loop N k ?c' ?w'] =>
        destruct (reconnect_loop_requests N k c' w')
          as (tr & Htr & Hc & Hf & Hr);
        rewrite Htr
    end;
    norm; eexists; (split; [reflexivity|]);
    unfold count_connects_to, count_connects, count_requests in *;
    simpl in *;
    rewrite ?bool_decide_eq_true_2 by done; simpl;
    repeat split; try lia; done.
Qed.

Lemma reconnect_requests_after_one_attempt_witness :
  ∃ tr, trace (reconnect dead_net (init 7 "A" 1 10 3)
                 (fresh_world Manager.init)).2
        = trace (fresh_world Manager.init) ++ tr
        ∧ count_connects_to ("A", 1) (before_first_request tr) = 1%nat
        ∧ count_connects (before_first_request tr) = 1%nat
        ∧ (1 ≤ count_requests tr)%nat
        ∧ requests_follow_failures 7 tr = true
        ∧ count_requests tr = count is_failed_connect tr
        ∧ (count_connects tr ≤ Z.to_nat 3)%nat.
Proof.
  apply (reconnect_requests_after_one_attempt dead_net (init 7 "A" 1 10 3)).
  - simpl. lia.
  - intros n. reflexivity.
Defined.

(** C5: the code at the failing input.  Client 7 holds ["A"], the pool
    is empty and [max_retries = 2]; the first attempt fails.  The
    replacement request is denied and the manager drops the client,
    but the loop goes on: a second connection attempt is made, it
    succeeds, and [reconnect] returns [True] for a client that the
    manager no longer knows. *)
Theorem reconnect_continues_after_exhaustion :
  let m := Manager.run [Manager.AddPeer "A" 1; Manager.GetNewPeer 7]
             Manager.init in
  let r := reconnect late_net (init 7 "A" 1 10 2) (fresh_world m) in
  Manager.peers m = []
  ∧ Manager.active_clients m !! 7 = Some ("A", 1)
  ∧ trace r.2 = [EConnect ("A", 1) false; ERequest 7 None; EFailure 7;
                 EClose; EConnect ("A", 1) true]
  ∧ count_connects (after_first_request (trace r.2)) = 1%nat
  ∧ r.1.1 = true
  ∧ connected r.1.2 = true
  ∧ Manager.active_clients (manager r.2) !! 7 = None.
Proof. vm_compute. repeat split. Qed.

(** C6, as stated, fails: [send] returns [None] both when the
    reconnection after the failed write succeeds and when it fails. *)
Lemma send_outcome_lost :
  let c := established 7 "A" 1 10 5 in
  let w := fresh_world Manager.init in
  let data := Json.JStr (py "hi") in
  let w1 := emit (ESendall (Json.dumps data) false) (tick w) in
  (reconnect broken_pipe_net c w1).1.1 = true
  ∧ (send broken_pipe_net data c w).1.1 = Return Json.JNull
  ∧ (send broken_pipe_net data c w).1.1 ≠ Return (Json.JBool true)
  ∧ (reconnect dead_net c w1).1.1 = false
  ∧ (send dead_net data c w).1.1 = Return Json.JNull.
Proof. vm_compute. repeat split. discriminate. Qed.

(** C6 (amended): when [send] is called on a connected client and the
    socket write raises, [send] calls [reconnect] exactly once, on the
    state left by the failed write, ends in the state [reconnect] leaves,
    and returns [None] whatever [reconnect] returned; the socket, when
    there is one, is closed on the way. *)
Theorem send_write_error (N : net) (data : Json.t) (c : t) (w : world) :
  connected c = true →
  sendall_ok N (clock w) (Json.dumps data) = false →
  let w1 := emit (ESendall (Json.dumps data) false) (tick w) in
  send N data c w
  = (Return Json.JNull, (reconnect N c w1).1.2, (reconnect N c w1).2)
  ∧ (client_socket c ≠ None →
     ∃ tr1 tr2, trace (send N data c w).2
                = trace w1 ++ tr1 ++ EClose :: tr2
                ∧ count_connects tr1 = 0%nat).
Proof.
  intros Hconn Hfail w1.
  assert (Hsend : send N data c w
    = (Return Json.JNull, (reconnect N c w1).1.2, (reconnect N c w1).2)).
  { unfold send, send_try. rewrite Hconn, JsonFacts.encode_dumps, Hfail.
    fold w1. by destruct (reconnect N c w1) as [[ok c'] w']. }
  split; [done|]. intros Hsock. rewrite Hsend. simpl.
  unfold reconnect.
  destruct (client_socket c) as [sock|] eqn:Hs; [clear Hsock|done].
  destruct (Z.to_nat (max_retries c)) as [|k]; simpl.
  - unfold notify_manager_failure, close. rewrite Hs.
    exists [EFailure (client_id c)], []. subst w1. by norm.
  - rewrite Hconn. unfold close at 1. rewrite Hs. unfold connect. simpl.
    destruct (connect_ok N _ _) eqn:Hok; simpl.
    + exists [], [EConnect (host_ip c, host_port c) true].
      subst w1. by norm.
    + unfold request_new_peer, Manager.get_new_peer. simpl.
      destruct (Manager.peers (manager w)) as [|a rest]; simpl;
        match goal with
        | |- context [reconnect_loop N k ?c' ?w'] =>
            destruct (reconnect_loop_extends N k c' w') as (tr & Htr & _ & _);
            rewrite Htr
        end;
        subst w1; norm; exists []; eexists;
        (split; [rewrite <- ?app_assoc; simpl; reflexivity|done]).
Qed.

Lemma send_write_error_witness :
  let c := established 7 "A" 1 10 5 in
  let w := fresh_world Manager.init in
  let data := Json.JStr (py "hi") in
  let w1 := emit (ESendall (Json.dumps data) false) (tick w) in
  send broken_pipe_net data c w
  = (Return Json.JNull, (reconnect broken_pipe_net c w1).1.2,
     (reconnect broken_pipe_net c w1).2)
  ∧ (client_socket c ≠ None →
     ∃ tr1 tr2, trace (send broken_pipe_net data c w).2
                = trace w1 ++ tr1 ++ EClose :: tr2
                ∧ count_connects tr1 = 0%nat).
Proof.
  apply (send_write_error broken_pipe_net (Json.JStr (py "hi"))
           (established 7 "A" 1 10 5) (fresh_world Manager.init));
    reflexivity.
Defined.

(** C7, as stated, fails: the socket read raises, the reconnection
    succeeds, and [receive] returns [None] although the peer never closed
    the connection and the client is connected. *)
Lemma receive_none_without_close :
  let r := receive broken_pipe_net loads_utf8 (established 7 "A" 1 10 5)
             (fresh_world Manager.init) in
  r.1.1 = Return Json.JNull
  ∧ recv_events (trace r.2) = [None]
  ∧ connected r.1.2 = true.
Proof. vm_compute. repeat split. Qed.

(** The [try] block of [receive]: one read; then either the decoded
    bytes, in the state the read left, or [None] in the state one
    reconnection leaves. *)
Lemma receive_try_result (N : net) (loads : bytes → option Json.t)
    (c : t) (w : world) :
  let w1 := emit (ERecv (recv_at N (clock w))) (tick w) in
  ∃ tr, trace (receive_try N loads c w).2
        = trace w ++ ERecv (recv_at N (clock w)) :: tr
        ∧ count is_io tr = 0%nat
        ∧ receive_try N loads c w
          = match recv_at N (clock w) with
            | Some data =>
                (match loads data with
                 | Some v => Return v
                 | None => Raise JSONDecodeError
                 end, c, w1)
            | None =>
                (Return Json.JNull, (reconnect N c w1).1.2,
                 (reconnect N c w1).2)
            end.
Proof.
  intros w1. unfold receive_try. fold w1.
  destruct (recv_at N (clock w)) as [data|] eqn:Hr.
  - exists []. subst w1. destruct (loads data); by norm.
  - destruct (reconnect_extends N c w1) as (tr & Htr & _ & Hio).
    destruct (reconnect N c w1) as [[ok c'] w'].
    exists tr. simpl in *. rewrite Htr. subst w1. by norm.
Qed.

(** C7 (amended): [receive] reads from the socket at most once.  When
    the client is not connected and the reconnection fails it returns
    [None] without reading, in the state the reconnection left.
    Otherwise it reads once, on the connection it had or on the one the
    reconnection made.  When the read raises it calls [reconnect] once,
    on the state after the failed read, and returns [None] in the state
    that call leaves, whatever the call returned.  When the read returns
    bytes it returns what [json.loads] makes of them, which is [None]
    only for the document [null], a decoding error being raised to the
    caller. *)
Theorem receive_result (N : net) (loads : bytes → option Json.t)
    (c : t) (w : world) :
  let start := if connected c then (true, c, w) else reconnect N c w in
  let c0 := start.1.2 in
  let w0 := start.2 in
  let w1 := emit (ERecv (recv_at N (clock w0))) (tick w0) in
  ∃ tr, trace (receive N loads c w).2 = trace w ++ tr
        ∧ match recv_events tr with
          | [] =>
              connected c = false
              ∧ (reconnect N c w).1.1 = false
              ∧ receive N loads c w = (Return Json.JNull, c0, w0)
          | [None] =>
              start.1.1 = true
              ∧ recv_at N (clock w0) = None
              ∧ receive N loads c w
                = (Return Json.JNull, (reconnect N c0 w1).1.2,
                   (reconnect N c0 w1).2)
          | [Some data] =>
              start.1.1 = true
              ∧ recv_at N (clock w0) = Some data
              ∧ receive N loads c w
                = (match loads data with
                   | Some v => Return v
                   | None => Raise JSONDecodeError
                   end, c0, w1)
          | _ => False
          end
        ∧ (connected c = false → (reconnect N c w).1.1 = false →
           recv_events tr = []).
Proof.
  intros start c0 w0 w1.
  assert (Hstart :
    ∃ tr0, trace w0 = trace w ++ tr0 ∧ count is_io tr0 = 0%nat).
  { subst w0 start. destruct (connected c).
    - exists []. by rewrite app_nil_r.
    - destruct (reconnect_extends N c w) as (tr & Htr & _ & Hio). eauto. }
  destruct Hstart as (tr0 & Htr0 & Hio0).
  destruct (receive_try_result N loads c0 w0) as (tr1 & Htr1 & Hio1 & Htry).
  fold w1 in Htry.
  assert (Hreceive : receive N loads c w
                     = if start.1.1 then receive_try N loads c0 w0
                       else (Return Json.JNull, c0, w0)).
  { subst c0 w0 start. unfold receive. destruct (connected c); [done|].
    by destruct (reconnect N c w) as [[[] c'] w']. }
  destruct (start.1.1) eqn:Hok.
  - exists (tr0 ++ ERecv (recv_at N (clock w0)) :: tr1).
    rewrite Hreceive, Htr1, Htr0, <- app_assoc. split; [done|].
    rewrite recv_events_app, (recv_events_no_io _ Hio0). simpl.
    rewrite (recv_events_no_io _ Hio1). split.
    + rewrite Htry. by destruct (recv_at N (clock w0)).
    + intros Hconn Hfail. subst start. rewrite Hconn in Hok. congruence.
  - exists tr0. rewrite Hreceive. split; [done|].
    rewrite (recv_events_no_io _ Hio0). split; [|done].
    subst start. destruct (connected c); [done|]. done.
Qed.

End ClientFacts.

(** ** Line framing and the JSON-RPC handler *)

Module P2pFacts.
Import P2p.

Lemma split_newline_line line rest :
  10 ∉ line → split_newline (line ++ 10 :: rest) = Some (line, rest).
Proof.
  induction line as [|c line IH]; intros Hnl; simpl; [done|].
  apply not_elem_of_cons in Hnl as [Hc Hline].
  destruct (c =? 10) eqn:E; [lia|]. by rewrite IH.
Qed.

Lemma split_newline_None text : 10 ∉ text → split_newline text = None.
Proof.
  induction text as [|c text IH]; intros Hnl; simpl; [done|].
  apply not_elem_of_cons in Hnl as [Hc Htext].
  destruct (c =? 10) eqn:E; [lia|]. by rewrite IH.
Qed.

Lemma split_newline_Some buffer message rest :
  split_newline buffer = Some (message, rest) →
  buffer = message ++ 10 :: rest ∧ 10 ∉ message.
Proof.
  revert message. induction buffer as [|c buffer IH]; intros message; simpl;
    [done|].
  destruct (c =? 10) eqn:E.
  - apply Z.eqb_eq in E as ->. intros [= <- <-].
    split; [done|apply not_elem_of_nil].
  - destruct (split_newline buffer) as [[m r]|]; [|done].
    intros [= <- <-]. destruct (IH m eq_refl) as [-> Hm].
    split; [done|]. apply not_elem_of_cons. split; [lia|done].
Qed.

Lemma split_newline_None_inv buffer : split_newline buffer = None → 10 ∉ buffer.
Proof.
  induction buffer as [|c buffer IH]; simpl; [intros _; apply not_elem_of_nil|].
  destruct (c =? 10) eqn:E; [done|].
  destruct (split_newline buffer) as [[m r]|]; [done|].
  intros _. apply not_elem_of_cons. split; [lia|auto].
Qed.

Lemma lines_of_tail text : 10 ∉ (lines_of text).2.
Proof.
  induction text as [|c text IH]; simpl; [apply not_elem_of_nil|].
  destruct (lines_of text) as [lines tail]. simpl in IH.
  destruct (c =? 10) eqn:E; [done|].
  destruct lines; simpl; [|done].
  apply not_elem_of_cons. split; [lia|done].
Qed.

Lemma lines_of_no_newline text : 10 ∉ text → lines_of text = ([], text).
Proof.
  induction text as [|c text IH]; intros Hnl; simpl; [done|].
  apply not_elem_of_cons in Hnl as [Hc Htext]. rewrite IH by done.
  destruct (c =? 10) eqn:E; [lia|done].
Qed.

Lemma lines_of_line line rest :
  10 ∉ line →
  lines_of (line ++ 10 :: rest) = (line :: (lines_of rest).1, (lines_of rest).2).
Proof.
  induction line as [|c line IH]; intros Hnl; simpl.
  - by destruct (lines_of rest).
  - apply not_elem_of_cons in Hnl as [Hc Hline]. rewrite IH by done.
    destruct (c =? 10) eqn:E; [lia|done].
Qed.

(** Cutting what has arrived is incremental: keep the unfinished line,
    append the next chunk, cut again. *)
Lemma lines_of_app text1 text2 :
  lines_of (text1 ++ text2)
  = ((lines_of text1).1 ++ (lines_of ((lines_of text1).2 ++ text2)).1,
     (lines_of ((lines_of text1).2 ++ text2)).2).
Proof.
  induction text1 as [|c text1 IH]; simpl.
  - by destruct (lines_of text2).
  - rewrite IH. destruct (lines_of text1) as [lines tail]. simpl.
    destruct (c =? 10) eqn:E; [done|].
    destruct lines as [|line lines]; simpl; [|done].
    destruct (lines_of (tail ++ text2)) as [lines2 tail2]. simpl.
    rewrite E. by destruct lines2.
Qed.

(** The frames of a list of lines, followed by an unfinished line, cut
    back into exactly those lines. *)
Lemma lines_of_frames (lines : list pystr) (tail : pystr) :
  Forall (λ line, 10 ∉ line) lines → 10 ∉ tail →
  lines_of (concat ((λ line, line ++ [10]) <$> lines) ++ tail) = (lines, tail).
Proof.
  intros Hlines Htail. induction Hlines as [|line lines Hline _ IH].
  - by apply lines_of_no_newline.
  - rewrite fmap_cons, concat_cons, <- !app_assoc.
    change ([10] ++ ?x) with (10 :: x).
    rewrite lines_of_line by done. by rewrite IH.
Qed.

Section Loop.
Variable handle : pystr → M unit.

Lemma drain_step buffer k :
  drain handle buffer k
  = match split_newline buffer with
    | None => (Return buffer, k)
    | Some (message, rest) =>
        match handle message k with
        | (Return _, k') => drain handle rest k'
        | (Raise e, k') => (Raise e, k')
        end
    end.
Proof.
  funelim (drain handle buffer k).
  - by rewrite e.
  - by rewrite Hsplit, Heq.
  - by rewrite Hsplit, Heq.
Qed.

Lemma handle_each_app lines1 lines2 k :
  handle_each handle (lines1 ++ lines2) k
  = match handle_each handle lines1 k with
    | (Return _, k') => handle_each handle lines2 k'
    | (Raise e, k') => (Raise e, k')
    end.
Proof.
  revert k. induction lines1 as [|line lines1 IH]; intros k; simpl; [done|].
  unfold mbind, M_bind, bind. destruct (handle line k) as [[[]|e] k']; [|done].
  apply IH.
Qed.

(** The inner loop handles the complete lines of the buffer in order and
    keeps the unfinished line. *)
Lemma drain_lines_of buffer k :
  drain handle buffer k
  = match handle_each handle (lines_of buffer).1 k with
    | (Return _, k') => (Return (lines_of buffer).2, k')
    | (Raise e, k') => (Raise e, k')
    end.
Proof.
  remember (length buffer) as n eqn:Hn. revert buffer k Hn.
  induction n as [n IH] using lt_wf_ind. intros buffer k ->.
  rewrite drain_step.
  destruct (split_newline buffer) as [[message rest]|] eqn:Hsplit.
  - apply split_newline_Some in Hsplit as [-> Hmsg].
    rewrite lines_of_line by done. simpl.
    unfold mbind, M_bind, bind.
    destruct (handle message k) as [[[]|e] k']; [|done].
    apply (IH (length rest)); [|done]. rewrite length_app. simpl. lia.
  - apply split_newline_None_inv in Hsplit.
    by rewrite lines_of_no_newline.
Qed.

(** The outer loop on non-empty chunks of ASCII text: whatever the
    chunking, the lines handled are the complete lines of the text
    received, and the buffer is the unfinished line. *)
Lemma recv_loop_chunks (chunks : list bytes) buffer k :
  Forall (λ chunk, chunk ≠ [] ∧ Forall (λ b, 0 ≤ b < 128) chunk) chunks →
  10 ∉ buffer →
  let r := recv_loop handle (Some <$> chunks) buffer k in
  let text := buffer ++ concat chunks in
  (r.1.1, r.2)
  = match handle_each handle (lines_of text).1 k with
    | (Return _, k') => (Waiting, k')
    | (Raise e, k') => (Aborted e, k')
    end
  ∧ (r.1.1 = Waiting → r.1.2 = (lines_of text).2).
Proof.
  intros Hchunks. revert buffer k.
  induction Hchunks as [|chunk chunks [Hne Hascii] _ IH]; intros buffer k Hbuf.
  - simpl. rewrite app_nil_r, lines_of_no_newline by done. done.
  - cbn [fmap list_fmap recv_loop concat].
    rewrite Utf8Facts.decode_ascii by done.
    destruct chunk as [|b chunk]; [done|].
    rewrite drain_lines_of, app_assoc, (lines_of_app (buffer ++ b :: chunk)).
    cbn [fst snd]. rewrite handle_each_app.
    destruct (handle_each handle (lines_of (buffer ++ b :: chunk)).1 k)
      as [[[]|e] k'].
    + apply IH, lines_of_tail.
    + simpl. split; [done|discriminate].
Qed.

End Loop.

Section Handler.
Variable wire : nat → bool.
Variable loads : pystr → option Json.t.

Lemma eval_py_in_pure key message k :
  snd (eval (py_in key message) k) = k.
Proof. by destruct (py_in key message). Qed.

(** Whatever does not look like a request or a response makes the [try]
    block raise before anything is written. *)
Lemma handle_json_rpc_try_invalid data peer_type k :
  invalid_line loads data →
  ∃ e, handle_json_rpc_try wire loads data peer_type k = (Raise e, k).
Proof.
  unfold invalid_line, handle_json_rpc_try.
  destruct (loads data) as [message|]; [|by exists JSONDecodeError].
  intros Hinv. destruct (Hinv k) as [Hreq Hresp]. clear Hinv.
  unfold mbind, M_bind, bind at 1. simpl.
  unfold handle_message_try, looks_like_request, looks_like_response,
    mbind, M_bind, bind in *.
  destruct (py_in (py "method") message) as [[]|e1]; simpl in *;
    [|destruct (py_in (py "result") message) as [[]|e2]; simpl in *;
      [done| |by eexists]
     |by eexists].
  - destruct (py_in (py "params") message) as [[]|e2]; simpl in *;
      [|destruct (py_in (py "result") message) as [[]|e3]; simpl in *;
        [done| |by eexists]
       |by eexists].
    + destruct (py_in (py "id") message) as [[]|e3]; simpl in *;
        [done| |by eexists].
      destruct (py_in (py "result") message) as [[]|e4]; simpl in *;
        [done| |by eexists].
      destruct (py_in (py "error") message) as [[]|e5]; simpl in *;
        [done|by eexists|by eexists].
    + destruct (py_in (py "error") message) as [[]|e5]; simpl in *;
        [done|by eexists|by eexists].
  - destruct (py_in (py "error") message) as [[]|e5]; simpl in *;
      [done|by eexists|by eexists].
Qed.


End Handler.

(** Scenario C of the specification: the echo request with id 7 and
    parameter ["hi"] is answered with the result ["hi"] under the same
    id. *)
Example scenario_C :
  handle_json_rpc (λ _, true) Json.loads
    (Json.dumps (request (py "echo") (Json.JStr (py "hi")) (Json.JInt 7)))
    "Client" fresh_socket
  = (Return (),
     {| sent := [frame (echo_response (Json.JInt 7) (Json.JStr (py "hi")))];
        writes := 1 |}).
Proof. vm_compute. reflexivity. Qed.


(** A line that parses to an object with none of the five members
    named above is unrecognised, and is answered with the error
    response. *)
Example unknown_object_answered :
  let line := Json.dumps (Json.JObj [(py "foo", Json.JInt 1)]) in
  unrecognised_line Json.loads line
  ∧ handle_json_rpc (λ _, true) Json.loads line "Server" fresh_socket
    = (Return (), {| sent := [frame error_response]; writes := 1 |}).
Proof. vm_compute. repeat split. Qed.

Section Unrecognised.
Variable wire : nat → bool.




End Unrecognised.




End P2pFacts.

(** ** [json.loads] after [json.dumps] *)

Module JsonRoundTrip.
Import Json.

(** *** Strings *)

Lemma hex_value_hex_digit d : 0 ≤ d < 16 → hex_value (hex_digit d) = Some d.
Proof.
  intros Hd.
  assert (d = 0 ∨ d = 1 ∨ d = 2 ∨ d = 3 ∨ d = 4 ∨ d = 5 ∨ d = 6 ∨ d = 7
          ∨ d = 8 ∨ d = 9 ∨ d = 10 ∨ d = 11 ∨ d = 12 ∨ d = 13 ∨ d = 14
          ∨ d = 15) as Hcases by lia.
  repeat (destruct Hcases as [->|Hcases]; [reflexivity|]).
  by subst.
Qed.

Lemma hex4_digits c :
  0 ≤ c < 65536 →
  hex4 (hex_digit (c / 4096 mod 16)) (hex_digit (c / 256 mod 16))
       (hex_digit (c / 16 mod 16)) (hex_digit (c mod 16)) = Some c.
Proof.
  intros Hc. unfold hex4.
  rewrite !hex_value_hex_digit by (apply Z.mod_pos_bound; lia).
  f_equal. Z.div_mod_to_equations. lia.
Qed.

Lemma scanstring_u_escape c rest :
  0 ≤ c < 65536 → is_high_surrogate c = false →
  scanstring (u_escape c ++ rest) = push c (scanstring rest).
Proof.
  intros Hc Hhigh. unfold u_escape. cbn [app scanstring].
  change (92 =? 34) with false. change (92 =? 92) with true.
  change (117 =? 117) with true. cbn match.
  by rewrite hex4_digits, Hhigh.
Qed.

Lemma lor_shifted a x n :
  0 ≤ n → 0 ≤ x < 2 ^ n → Z.lor (a * 2 ^ n) x = a * 2 ^ n + x.
Proof.
  intros Hn Hx.
  assert (Hland : Z.land (a * 2 ^ n) x = 0).
  { apply Z.bits_inj'. intros i Hi. rewrite Z.land_spec, Z.bits_0.
    destruct (Z.lt_ge_cases i n).
    - by rewrite Z.mul_pow2_bits_low by lia.
    - rewrite <- (Z.mod_small x (2 ^ n)) by lia.
      rewrite Z.mod_pow2_bits_high by lia. apply andb_false_r. }
  by rewrite Z.add_nocarry_lxor, Z.lxor_lor.
Qed.

(** The two halves [json.dumps] writes for a character above the basic
    plane. *)
Lemma surrogate_halves c :
  65536 ≤ c < 1114112 →
  let n := c - 65536 in
  Z.lor 55296 (Z.land (Z.shiftr n 10) 1023) = 55296 + n / 1024
  ∧ Z.lor 56320 (Z.land n 1023) = 56320 + n mod 1024
  ∧ 0 ≤ n / 1024 < 1024.
Proof.
  intros Hc n. assert (0 ≤ n < 1048576) as Hn by (unfold n; lia).
  assert (0 ≤ n / 1024 < 1024) as Hq by (Z.div_mod_to_equations; lia).
  change 1023 with (Z.ones 10).
  rewrite !Z.land_ones, Z.shiftr_div_pow2 by lia.
  change (2 ^ 10) with 1024. rewrite (Z.mod_small (n / 1024)) by lia.
  assert (0 ≤ n mod 1024 < 1024) as Hr by (apply Z.mod_pos_bound; lia).
  change 55296 with (54 * 2 ^ 10). change 56320 with (55 * 2 ^ 10).
  rewrite !lor_shifted by (change (2 ^ 10) with 1024; lia).
  change (2 ^ 10) with 1024. lia.
Qed.

Lemma join_surrogates_halves c :
  65536 ≤ c < 1114112 →
  join_surrogates (55296 + (c - 65536) / 1024) (56320 + (c - 65536) mod 1024)
  = c.
Proof.
  intros Hc. unfold join_surrogates.
  replace (55296 + (c - 65536) / 1024 - 55296) with ((c - 65536) / 1024) by lia.
  replace (56320 + (c - 65536) mod 1024 - 56320) with ((c - 65536) mod 1024)
    by lia.
  rewrite Z.shiftl_mul_pow2 by lia.
  assert (0 ≤ (c - 65536) mod 1024 < 1024) as Hr
    by (apply Z.mod_pos_bound; lia).
  rewrite lor_shifted by (change (2 ^ 10) with 1024; lia).
  change (2 ^ 10) with 1024. Z.div_mod_to_equations. lia.
Qed.

Lemma scanstring_surrogate_pair c rest :
  65536 ≤ c < 1114112 →
  scanstring
    (u_escape (Z.lor 55296 (Z.land (Z.shiftr (c - 65536) 10) 1023))
     ++ u_escape (Z.lor 56320 (Z.land (c - 65536) 1023)) ++ rest)
  = push c (scanstring rest).
Proof.
  intros Hc. destruct (surrogate_halves c Hc) as (-> & -> & Hq).
  set (hi := 55296 + (c - 65536) / 1024).
  set (lo := 56320 + (c - 65536) mod 1024).
  assert (0 ≤ (c - 65536) mod 1024 < 1024) as Hr
    by (apply Z.mod_pos_bound; lia).
  assert (is_high_surrogate hi = true) as Hhi
    by (unfold is_high_surrogate, hi; lia).
  assert (is_low_surrogate lo = true) as Hlo
    by (unfold is_low_surrogate, lo; lia).
  unfold u_escape. cbn [app scanstring].
  change (92 =? 34) with false. change (92 =? 92) with true.
  change (117 =? 117) with true. cbn match.
  rewrite !hex4_digits by (unfold hi, lo; lia).
  rewrite Hhi. simpl andb. cbn match. rewrite Hlo.
  unfold hi, lo. by rewrite join_surrogates_halves.
Qed.

Lemma scanstring_escape_char c rest :
  scalar c → scanstring (escape_char c ++ rest) = push c (scanstring rest).
Proof.
  intros [Hrange Hsurr]. unfold escape_char.
  destruct (c =? 34) eqn:E34; [apply Z.eqb_eq in E34 as ->; reflexivity|].
  destruct (c =? 92) eqn:E92; [apply Z.eqb_eq in E92 as ->; reflexivity|].
  destruct (c =? 10) eqn:E10; [apply Z.eqb_eq in E10 as ->; reflexivity|].
  destruct (c =? 13) eqn:E13; [apply Z.eqb_eq in E13 as ->; reflexivity|].
  destruct (c =? 9) eqn:E9; [apply Z.eqb_eq in E9 as ->; reflexivity|].
  destruct (c =? 8) eqn:E8; [apply Z.eqb_eq in E8 as ->; reflexivity|].
  destruct (c =? 12) eqn:E12; [apply Z.eqb_eq in E12 as ->; reflexivity|].
  destruct ((32 <=? c) && (c <=? 126)) eqn:Eprint.
  { cbn [app scanstring]. rewrite E34, E92.
    destruct (c <? 32) eqn:Elow; [lia|done]. }
  destruct (c <? 65536) eqn:Ebmp.
  - apply scanstring_u_escape; [lia|]. unfold is_high_surrogate. lia.
  - rewrite <- app_assoc. apply scanstring_surrogate_pair. lia.
Qed.

(** Reading back the body of a string literal. *)
Lemma scanstring_escaped s rest :
  wf_str s →
  scanstring (concat (escape_char <$> s) ++ 34 :: rest) = Some (s, rest).
Proof.
  induction 1 as [|c s Hc _ IH]; [reflexivity|].
  rewrite fmap_cons, concat_cons, <- app_assoc.
  by rewrite scanstring_escape_char, IH.
Qed.

(** *** Integers *)

Lemma scan_digits_spec ds rest acc :
  Forall (λ d, is_digit d = true) ds → follows rest →
  scan_digits (ds ++ rest) acc = (digits_value ds acc, rest).
Proof.
  intros Hds Hrest. revert acc.
  induction Hds as [|d ds Hd _ IH]; intros acc; simpl.
  - destruct rest as [|c rest]; [reflexivity|]. simpl in Hrest.
    cbn [scan_digits]. unfold is_digit.
    destruct ((48 <=? c) && (c <=? 57)) eqn:E; [lia|reflexivity].
  - by rewrite Hd, IH.
Qed.

Lemma dec_digits_acc fuel n acc :
  dec_digits fuel n acc = dec_digits fuel n [] ++ acc.
Proof.
  revert n acc. induction fuel as [|fuel IH]; intros n acc; simpl; [done|].
  destruct (n <? 10); [done|].
  rewrite IH, (IH _ [_]), <- app_assoc. done.
Qed.

Lemma dec_digits_S fuel n acc :
  dec_digits (S fuel) n acc
  = if n <? 10 then (48 + n mod 10) :: acc
    else dec_digits fuel (n / 10) ((48 + n mod 10) :: acc).
Proof. reflexivity. Qed.

(** With enough fuel the digits are decimal digits, start with a
    non-zero digit unless the number is zero, and denote the number. *)
Lemma dec_digits_spec fuel n :
  0 ≤ n < 2 ^ Z.of_nat (S fuel) →
  ∃ d ds, dec_digits (S fuel) n [] = d :: ds
          ∧ Forall (λ d, is_digit d = true) (d :: ds)
          ∧ (0 < n → d ≠ 48)
          ∧ (n = 0 → d = 48 ∧ ds = [])
          ∧ digits_value (d :: ds) 0 = n.
Proof.
  revert n. induction fuel as [|fuel IH]; intros n Hn.
  - change (2 ^ Z.of_nat 1) with 2 in Hn. simpl.
    destruct (n <? 10) eqn:E; [|lia].
    exists (48 + n mod 10), []. rewrite Z.mod_small by lia.
    repeat split; try lia.
    + apply Forall_singleton. unfold is_digit. lia.
    + unfold digits_value. simpl. lia.
  - rewrite dec_digits_S. destruct (n <? 10) eqn:E.
    + exists (48 + n mod 10), []. rewrite Z.mod_small by lia.
      repeat split; try lia.
      * apply Forall_singleton. unfold is_digit. lia.
      * unfold digits_value. simpl. lia.
    + rewrite dec_digits_acc.
      rewrite Nat2Z.inj_succ, Z.pow_succ_r in Hn by lia.
      assert (0 < 2 ^ Z.of_nat (S fuel)) by (apply Z.pow_pos_nonneg; lia).
      destruct (IH (n / 10)) as (d & ds & -> & Hds & Hpos & _ & Hval).
      { Z.div_mod_to_equations. lia. }
      exists d, (ds ++ [48 + n mod 10]).
      assert (0 ≤ n mod 10 < 10) by (apply Z.mod_pos_bound; lia).
      repeat split; try lia.
      * rewrite app_comm_cons. apply Forall_app. split; [done|].
        apply Forall_singleton. unfold is_digit. lia.
      * intros _. apply Hpos. Z.div_mod_to_equations. lia.
      * rewrite app_comm_cons. unfold digits_value in *.
        rewrite fold_left_app, Hval. simpl. Z.div_mod_to_equations. lia.
Qed.

Lemma log2_fuel n : 0 ≤ n → 0 ≤ n < 2 ^ Z.of_nat (S (Z.to_nat (Z.log2 n))).
Proof.
  intros Hn. split; [done|].
  rewrite Nat2Z.inj_succ, Z2Nat.id by apply Z.log2_nonneg.
  destruct (decide (n = 0)) as [->|Hne]; [done|].
  apply Z.log2_spec. lia.
Qed.

Lemma float_tail_follows rest : follows rest → float_tail rest = false.
Proof.
  destruct rest as [|c [|d rest]]; [done..|].
  simpl. intros [->| [->| ->]]; reflexivity.
Qed.

Lemma scan_natural_dec_digits n rest :
  0 ≤ n → follows rest →
  scan_natural (dec_digits (S (Z.to_nat (Z.log2 n))) n [] ++ rest)
  = Some (n, rest).
Proof.
  intros Hn Hrest.
  destruct (dec_digits_spec _ n (log2_fuel n Hn))
    as (d & ds & -> & Hds & Hpos & Hzero & Hval).
  apply Forall_cons in Hds as [Hd Hds].
  cbn [app scan_natural]. destruct (d =? 48) eqn:E.
  - apply Z.eqb_eq in E.
    destruct (decide (n = 0)) as [->|Hne]; [|lia].
    destruct (Hzero eq_refl) as [_ ->]. done.
  - rewrite Hd, scan_digits_spec by done. do 2 f_equal.
    unfold digits_value in *. simpl in Hval. by replace (d - 48) with (0 * 10 + (d - 48)) by lia.
Qed.

(** The first character of the decimal form: a digit or a minus sign. *)
Lemma repr_int_head n :
  ∃ c s, repr_int n = c :: s ∧ (c = 45 ∨ is_digit c = true).
Proof.
  unfold repr_int. destruct (n <? 0) eqn:E; [by eauto|].
  destruct (dec_digits_spec _ n (log2_fuel n ltac:(lia)))
    as (d & ds & -> & Hds & _).
  apply Forall_cons in Hds as [Hd _]. eauto.
Qed.

Lemma scan_number_repr_int n rest :
  follows rest → scan_number (repr_int n ++ rest) = Some (JInt n, rest).
Proof.
  intros Hrest. unfold repr_int, scan_number. destruct (n <? 0) eqn:E.
  - cbn [app]. change (45 =? 45) with true. cbn match.
    rewrite scan_natural_dec_digits by (done || lia).
    rewrite float_tail_follows by done. do 3 f_equal. lia.
  - destruct (dec_digits_spec _ n (log2_fuel n ltac:(lia)))
      as (d & ds & Heq & Hds & _).
    pose proof (scan_natural_dec_digits n rest ltac:(lia) Hrest) as Hscan.
    rewrite Heq in Hscan |- *. apply Forall_cons in Hds as [Hd _].
    cbn [app]. destruct (d =? 45) eqn:E45; [unfold is_digit in Hd; lia|].
    cbn [app] in Hscan. rewrite Hscan.
    by rewrite float_tail_follows.
Qed.

(** *** Documents *)

Lemma dumps_head v : ∃ c s, dumps v = c :: s ∧ start_char c.
Proof.
  unfold start_char. destruct v as [|[]|n|s|items|members];
    try (eexists _, _; split; [reflexivity|]; tauto).
  destruct (repr_int_head n) as (c & s & Heq & Hc).
  exists c, s. split; [done|]. tauto.
Qed.

Lemma skip_ws_start c s : start_char c → skip_ws (c :: s) = c :: s.
Proof.
  intros Hc. cbn [skip_ws]. unfold is_ws, start_char, is_digit in *.
  destruct ((c =? 32) || (c =? 9) || (c =? 10) || (c =? 13)) eqn:E; [lia|done].
Qed.

Lemma skip_ws_dumps v rest : skip_ws (dumps v ++ rest) = dumps v ++ rest.
Proof.
  destruct (dumps_head v) as (c & s & -> & Hc). by apply skip_ws_start.
Qed.

Lemma scan_once_number fuel c s :
  c = 45 ∨ is_digit c = true →
  scan_once (S fuel) (c :: s) = scan_number (c :: s).
Proof.
  intros Hc. unfold is_digit in Hc. cbn [scan_once].
  destruct (c =? 34) eqn:E1; [lia|]. destruct (c =? 123) eqn:E2; [lia|].
  destruct (c =? 91) eqn:E3; [lia|].
  change (py "null") with [110; 117; 108; 108].
  change (py "true") with [116; 114; 117; 101].
  change (py "false") with [102; 97; 108; 115; 101].
  cbn [strip_prefix].
  destruct (110 =? c) eqn:E4; [lia|]. destruct (116 =? c) eqn:E5; [lia|].
  destruct (102 =? c) eqn:E6; [lia|]. done.
Qed.

Lemma scan_once_string fuel s :
  scan_once (S fuel) (34 :: s)
  = match scanstring s with
    | Some (str, rest) => Some (JStr str, rest)
    | None => None
    end.
Proof. reflexivity. Qed.

Lemma scan_once_array fuel s :
  scan_once (S fuel) (91 :: s)
  = match skip_ws s with
    | c1 :: s1 =>
        if c1 =? 93 then Some (JArr [], s1)
        else
          match scan_items fuel (c1 :: s1) with
          | Some (items, rest) => Some (JArr items, rest)
          | None => None
          end
    | [] => None
    end.
Proof. reflexivity. Qed.

Lemma scan_once_object fuel s :
  scan_once (S fuel) (123 :: s)
  = match skip_ws s with
    | c1 :: s1 =>
        if c1 =? 125 then Some (JObj [], s1)
        else if c1 =? 34 then
          match scan_members fuel s1 with
          | Some (pairs, rest) => Some (JObj (dict_of_pairs pairs), rest)
          | None => None
          end
        else None
    | [] => None
    end.
Proof. reflexivity. Qed.

Lemma scan_items_S fuel s :
  scan_items (S fuel) s
  = match scan_once fuel s with
    | Some (value, rest) =>
        match skip_ws rest with
        | c :: s1 =>
            if c =? 93 then Some ([value], s1)
            else if c =? 44 then
              match scan_items fuel (skip_ws s1) with
              | Some (values, rest') => Some (value :: values, rest')
              | None => None
              end
            else None
        | [] => None
        end
    | None => None
    end.
Proof. reflexivity. Qed.

Lemma scan_members_S fuel s :
  scan_members (S fuel) s
  = match scanstring s with
    | Some (key, rest) =>
        match skip_ws rest with
        | c :: s1 =>
            if c =? 58 then
              match scan_once fuel (skip_ws s1) with
              | Some (value, rest1) =>
                  match skip_ws rest1 with
                  | c2 :: s2 =>
                      if c2 =? 125 then Some ([(key, value)], s2)
                      else if c2 =? 44 then
                        match skip_ws s2 with
                        | c3 :: s3 =>
                            if c3 =? 34 then
                              match scan_members fuel s3 with
                              | Some (pairs, rest') =>
                                  Some ((key, value) :: pairs, rest')
                              | None => None
                              end
                            else None
                        | [] => None
                        end
                      else None
                  | [] => None
                  end
              | None => None
              end
            else None
        | [] => None
        end
    | None => None
    end.
Proof. reflexivity. Qed.

Lemma join_comma_cons2 p q ps :
  join_comma (p :: q :: ps) = p ++ 44 :: 32 :: join_comma (q :: ps).
Proof. reflexivity. Qed.

Lemma skip_ws_space s : skip_ws (32 :: s) = skip_ws s.
Proof. reflexivity. Qed.

Lemma join_comma_head (f : t → pystr) items :
  (∀ x, ∃ c s, f x = c :: s ∧ start_char c) → items ≠ [] →
  ∃ c s, join_comma (map f items) = c :: s ∧ start_char c.
Proof.
  intros Hf Hne. destruct items as [|x items]; [done|].
  destruct (Hf x) as (c & s & Hx & Hc).
  destruct items as [|y items].
  - exists c, s. by cbn [map join_comma].
  - exists c, (s ++ 44 :: 32 :: join_comma (map f (y :: items))).
    change (map f (x :: y :: items)) with (f x :: f y :: map f items).
    by rewrite join_comma_cons2, Hx.
Qed.

Lemma scan_items_dumps items :
  Forall reads_back items → items ≠ [] →
  ∀ fuel rest,
    (length (join_comma (map dumps items)) < fuel)%nat →
    scan_items fuel (join_comma (map dumps items) ++ 93 :: rest)
    = Some (items, rest).
Proof.
  induction 1 as [|x items Hx Hitems IH]; [done|]. intros _ fuel rest Hfuel.
  destruct fuel as [|fuel]; [lia|]. rewrite scan_items_S.
  destruct items as [|y items].
  - cbn [map join_comma] in *.
    rewrite (Hx fuel (93 :: rest)) by (lia || (simpl; tauto)).
    reflexivity.
  - change (map dumps (x :: y :: items))
      with (dumps x :: dumps y :: map dumps items) in *.
    rewrite join_comma_cons2 in *.
    change (dumps y :: map dumps items) with (map dumps (y :: items)) in *.
    destruct (join_comma_head dumps (y :: items) dumps_head ltac:(done))
      as (c & s & HJ & Hc).
    set (J := join_comma (map dumps (y :: items))) in *.
    rewrite length_app in Hfuel. cbn [length] in Hfuel.
    rewrite <- app_assoc. cbn [app].
    rewrite (Hx fuel) by (lia || (simpl; tauto)).
    change (skip_ws (44 :: 32 :: J ++ 93 :: rest))
      with (44 :: 32 :: J ++ 93 :: rest).
    change (44 =? 93) with false. change (44 =? 44) with true. cbn match.
    rewrite skip_ws_space, HJ. rewrite <- app_comm_cons.
    rewrite skip_ws_start by done. rewrite app_comm_cons, <- HJ.
    rewrite IH; [done|done|lia].
Qed.

Lemma member_text_head kv :
  ∃ c s, member_text kv = c :: s ∧ start_char c.
Proof.
  exists 34. eexists. split; [reflexivity|]. unfold start_char. tauto.
Qed.

Lemma join_members_quote members :
  members ≠ [] → ∃ body, join_comma (map member_text members) = 34 :: body.
Proof.
  intros Hne. destruct members as [|kv [|kv' members]]; [done|..].
  - eexists. reflexivity.
  - eexists. change (map member_text (kv :: kv' :: members))
      with (member_text kv :: member_text kv' :: map member_text members).
    rewrite join_comma_cons2. reflexivity.
Qed.

Lemma scan_members_dumps members :
  Forall (λ kv, wf_str (fst kv) ∧ reads_back (snd kv)) members →
  members ≠ [] →
  ∀ fuel rest body,
    join_comma (map member_text members) = 34 :: body →
    (length body < fuel)%nat →
    scan_members fuel (body ++ 125 :: rest) = Some (members, rest).
Proof.
  induction 1 as [|[k v] members [Hk Hv] Hmembers IH]; [done|].
  intros _ fuel rest body Hbody Hfuel. cbn [fst snd] in *.
  destruct fuel as [|fuel]; [lia|]. rewrite scan_members_S.
  destruct members as [|kv' members].
  - cbn [map join_comma] in Hbody. unfold member_text in Hbody.
    cbn [fst snd] in Hbody. unfold encode_basestring_ascii in Hbody.
    cbn [app] in Hbody. injection Hbody as <-.
    rewrite !length_app in Hfuel. cbn [length] in Hfuel.
    rewrite <- !app_assoc. cbn [app].
    rewrite scanstring_escaped by done.
    change (skip_ws (58 :: ?tl)) with (58 :: tl).
    change (58 =? 58) with true. cbn match.
    rewrite !skip_ws_space, !skip_ws_dumps.
    rewrite (Hv fuel) by (lia || (simpl; tauto)).
    reflexivity.
  - change (map member_text ((k, v) :: kv' :: members))
      with (member_text (k, v) :: member_text kv'
            :: map member_text members) in Hbody.
    rewrite join_comma_cons2 in Hbody.
    change (member_text kv' :: map member_text members)
      with (map member_text (kv' :: members)) in *.
    destruct (join_members_quote (kv' :: members) ltac:(done))
      as [body' Hbody'].
    rewrite Hbody' in Hbody. unfold member_text at 1 in Hbody.
    cbn [fst snd] in Hbody. unfold encode_basestring_ascii in Hbody.
    cbn [app] in Hbody. injection Hbody as <-.
    rewrite !length_app in Hfuel. cbn [length] in Hfuel.
    rewrite ?length_app in Hfuel. cbn [length] in Hfuel.
    rewrite <- !app_assoc. cbn [app]. rewrite <- ?app_assoc. cbn [app].
    rewrite scanstring_escaped by done.
    change (skip_ws (58 :: ?tl)) with (58 :: tl).
    change (58 =? 58) with true. cbn match.
    rewrite !skip_ws_space, !skip_ws_dumps.
    rewrite (Hv fuel) by (lia || (simpl; tauto)).
    change (skip_ws (44 :: ?tl)) with (44 :: tl).
    change (44 =? 125) with false. change (44 =? 44) with true. cbn match.
    change (skip_ws (32 :: 34 :: ?tl)) with (34 :: tl).
    change (34 =? 34) with true. cbn match.
    rewrite (IH ltac:(done) fuel rest body' Hbody') by lia.
    reflexivity.
Qed.

Lemma dict_set_fresh k v (d : list (pystr * t)) :
  k ∉ d.*1 → dict_set k v d = d ++ [(k, v)].
Proof.
  induction d as [|[k' v'] d IH]; intros Hk; simpl; [done|].
  rewrite fmap_cons in Hk. apply not_elem_of_cons in Hk as [Hne Hk].
  simpl in Hne. destruct (decide (k' = k)); [congruence|].
  by rewrite IH.
Qed.

Lemma dict_of_pairs_NoDup members :
  NoDup members.*1 → dict_of_pairs members = members.
Proof.
  unfold dict_of_pairs.
  assert (∀ acc, NoDup (acc ++ members).*1 →
            fold_left (λ d kv, dict_set (fst kv) (snd kv) d) members acc
            = acc ++ members) as Hgen.
  { induction members as [|[k v] members IH]; intros acc Hnd; simpl.
    - by rewrite app_nil_r.
    - rewrite dict_set_fresh.
      + rewrite IH; rewrite <- app_assoc; done.
      + rewrite fmap_app in Hnd. apply NoDup_app in Hnd as (_ & Hdisj & _).
        intros Hin. apply (Hdisj k Hin). rewrite fmap_cons. by left. }
  intros Hnd. by apply (Hgen []).
Qed.

Lemma wf_items items :
  foldr (λ x P, wf x ∧ P) True items → Forall wf items.
Proof.
  induction items as [|x items IH]; simpl; [constructor|].
  intros [Hx Hitems]. constructor; auto.
Qed.

Lemma wf_members (members : list (pystr * t)) :
  foldr (λ kv P, wf_str (fst kv) ∧ wf (snd kv) ∧ P) True members →
  Forall (λ kv, wf_str (fst kv) ∧ wf (snd kv)) members.
Proof.
  induction members as [|kv members IH]; simpl; [constructor|].
  intros (Hk & Hv & Hmembers). constructor; auto.
Qed.

(** Every well-formed document is read back from its serialisation,
    whatever follows it. *)
Lemma scan_once_dumps v : wf v → reads_back v.
Proof.
  induction v as [|b|n|s|items IH|members IH] using json_ind;
    intros Hwf fuel rest Hfuel Hrest.
  - destruct fuel as [|fuel]; [simpl in Hfuel; lia|]. reflexivity.
  - destruct b; (destruct fuel as [|fuel]; [simpl in Hfuel; lia|]);
      reflexivity.
  - cbn [dumps] in *. destruct (repr_int_head n) as (c & s & Heq & Hc).
    destruct fuel as [|fuel]; [rewrite Heq in Hfuel; simpl in Hfuel; lia|].
    rewrite Heq. cbn [app]. rewrite scan_once_number by done.
    rewrite app_comm_cons, <- Heq. by apply scan_number_repr_int.
  - cbn [dumps wf] in *. unfold encode_basestring_ascii in *.
    destruct fuel as [|fuel]; [simpl in Hfuel; lia|].
    cbn [app]. rewrite scan_once_string, <- app_assoc. cbn [app].
    by rewrite scanstring_escaped.
  - cbn [dumps wf] in *. apply wf_items in Hwf.
    assert (Forall reads_back items) as Hread.
    { rewrite Forall_forall in IH, Hwf |- *. intros x Hx. auto. }
    destruct fuel as [|fuel]; [simpl in Hfuel; lia|].
    cbn [app] in *. rewrite scan_once_array.
    destruct items as [|x items]; [reflexivity|].
    destruct (join_comma_head dumps (x :: items) dumps_head ltac:(done))
      as (c & s & HJ & Hc).
    rewrite <- app_assoc. cbn [app].
    cbn [length] in Hfuel. rewrite length_app in Hfuel. cbn [length] in Hfuel.
    pose proof (scan_items_dumps (x :: items) Hread ltac:(done) fuel rest
                  ltac:(lia)) as Hscan.
    rewrite HJ in Hscan |- *. cbn [app] in Hscan |- *.
    rewrite skip_ws_start by done.
    destruct (c =? 93) eqn:E; [unfold start_char, is_digit in Hc; lia|].
    by rewrite Hscan.
  - change (dumps (JObj members))
      with ([123] ++ join_comma (map member_text members) ++ [125]) in *.
    cbn [wf] in *. destruct Hwf as [Hnd Hwf]. apply wf_members in Hwf.
    assert (Forall (λ kv, wf_str (fst kv) ∧ reads_back (snd kv)) members)
      as Hread.
    { rewrite Forall_forall in IH, Hwf |- *. intros kv Hkv.
      destruct (Hwf kv Hkv). auto. }
    destruct fuel as [|fuel]; [simpl in Hfuel; lia|].
    cbn [app] in *. rewrite scan_once_object.
    destruct members as [|kv members]; [reflexivity|].
    destruct (join_members_quote (kv :: members) ltac:(done)) as [body Hbody].
    rewrite <- app_assoc. cbn [app].
    cbn [length] in Hfuel. rewrite length_app in Hfuel. cbn [length] in Hfuel.
    rewrite Hbody in Hfuel |- *. cbn [length] in Hfuel. cbn [app].
    change (skip_ws (34 :: ?tl)) with (34 :: tl).
    change (34 =? 125) with false. change (34 =? 34) with true. cbn match.
    rewrite (scan_members_dumps (kv :: members) Hread ltac:(done) fuel rest
               body Hbody) by lia.
    by rewrite dict_of_pairs_NoDup.
Qed.

(** [json.loads(json.dumps(v)) == v] for every well-formed document. *)
Lemma loads_dumps v : wf v → loads (dumps v) = Some v.
Proof.
  intros Hwf. unfold loads.
  rewrite <- (app_nil_r (dumps v)) at 2. rewrite skip_ws_dumps.
  rewrite (scan_once_dumps v Hwf) by (simpl; (lia || done)).
  reflexivity.
Qed.

End JsonRoundTrip.

(** ** The codec end to end *)

Module CodecFacts.
Import P2p.

Lemma wf_str_printable s : Forall Utf8.printable s → Json.wf_str s.
Proof.
  intros Hs. eapply Forall_impl; [exact Hs|].
  unfold Utf8.printable, Json.scalar. lia.
Qed.

Lemma wf_request method params id :
  Json.wf_str method → Json.wf params → Json.wf id →
  Json.wf (request method params id).
Proof.
  intros Hm Hp Hi. split.
  - apply (bool_decide_unpack _). vm_compute. reflexivity.
  - cbn [foldr fst snd Json.wf].
    repeat split; try done;
      apply wf_str_printable, Utf8Facts.printable_forallb; reflexivity.
Qed.

Lemma hello_world_request request_id :
  hello_world request_id
  = request (py "echo") (Json.JStr (py "hello world")) request_id.
Proof. reflexivity. Qed.

Lemma frame_ascii message : Forall (λ c, 0 ≤ c < 128) (frame message).
Proof.
  unfold frame. apply Forall_app. split.
  - apply Utf8Facts.printable_ascii, JsonFacts.dumps_printable.
  - apply Forall_singleton. lia.
Qed.


Section Decoding.
Variable wire : nat → bool.



End Decoding.



End CodecFacts.

(** * Further properties of the code *)

(** ** Pool manager: removal, release, allocation order *)

Module ManagerScriptFacts.
Import Manager ManagerScripts.

Lemma occurrences_cons a x pool :
  occurrences a (x :: pool)
  = ((if decide (x = a) then 1 else 0) + occurrences a pool)%nat.
Proof.
  unfold occurrences. destruct (decide (x = a)) as [->|Hne].
  - by rewrite filter_cons_True.
  - by rewrite filter_cons_False.
Qed.

Lemma occurrences_remove_first a x pool :
  occurrences a (list_remove_first x pool)
  = if decide (a = x) then pred (occurrences a pool) else occurrences a pool.
Proof.
  induction pool as [|y pool IH]; simpl.
  - by destruct (decide (a = x)).
  - destruct (decide (y = x)) as [->|Hyx].
    + rewrite occurrences_cons.
      destruct (decide (a = x)) as [->|Hax].
      * by rewrite decide_True.
      * by rewrite decide_False.
    + rewrite !occurrences_cons, IH.
      destruct (decide (a = x)) as [->|Hax]; [|done].
      by rewrite decide_False.
Qed.

Lemma occurrences_absent a pool : a ∉ pool → occurrences a pool = 0%nat.
Proof.
  induction pool as [|y pool IH]; intros Hnin; [done|].
  apply not_elem_of_cons in Hnin as [Hne Hnin].
  rewrite occurrences_cons, decide_False by done. by rewrite IH.
Qed.

Lemma list_remove_first_split x l1 l2 :
  x ∉ l1 → list_remove_first x (l1 ++ x :: l2) = l1 ++ l2.
Proof.
  induction l1 as [|y l1 IH]; intros Hnin; simpl.
  - by rewrite decide_True.
  - apply not_elem_of_cons in Hnin as [Hne Hnin].
    rewrite decide_False by done. by rewrite IH.
Qed.

Lemma list_remove_first_absent x l : x ∉ l → list_remove_first x l = l.
Proof.
  induction l as [|y l IH]; intros Hnin; simpl; [done|].
  apply not_elem_of_cons in Hnin as [Hne Hnin].
  rewrite decide_False by done. by rewrite IH.
Qed.

(** X1: [remove_peer] takes exactly one occurrence of the address out of
    the pool, the first one, and nothing else: an address that was in the
    pool twice is still in it once, an absent address changes nothing,
    the other addresses keep their number of occurrences, and the
    assignment table is never touched. *)
Theorem remove_peer_removes_one (h : string) (p : Z) (m : t) (a : PeerAddress) :
  occurrences a (peers (remove_peer h p m))
  = (if decide (a = (h, p)) then pred (occurrences a (peers m))
     else occurrences a (peers m))
  ∧ active_clients (remove_peer h p m) = active_clients m
  ∧ match decide ((h, p) ∈ peers m) with
    | left _ =>
        ∃ l1 l2, peers m = l1 ++ (h, p) :: l2 ∧ ((h, p) ∉ l1)
                 ∧ peers (remove_peer h p m) = l1 ++ l2
    | right _ => remove_peer h p m = m
    end.
Proof.
  unfold remove_peer. cbn zeta.
  destruct (decide ((h, p) ∈ peers m)) as [Hin|Hnin]; simpl.
  - split; [apply occurrences_remove_first|]. split; [done|].
    apply list_elem_of_split_l in Hin as (l1 & l2 & Heq & Hl1).
    exists l1, l2. rewrite Heq at 1 2. split; [done|]. split; [done|].
    by apply list_remove_first_split.
  - split; [|done]. destruct (decide (a = (h, p))) as [->|]; [|done].
    by rewrite occurrences_absent.
Qed.

(** X2: reporting a client's failure is idempotent, leaves the pool and
    every other client's entry alone, and is redundant before a new
    allocation for the same client: when the pool is not empty,
    [get_new_peer] gives the same answer and the same state with or
    without the report. *)
Theorem handle_client_failure_release (c : Z) (m : t) :
  handle_client_failure c (handle_client_failure c m)
  = handle_client_failure c m
  ∧ peers (handle_client_failure c m) = peers m
  ∧ active_clients (handle_client_failure c m) = delete c (active_clients m)
  ∧ match peers m with
    | [] => get_new_peer c (handle_client_failure c m)
            = (None, handle_client_failure c m)
    | _ :: _ => get_new_peer c (handle_client_failure c m) = get_new_peer c m
    end.
Proof.
  assert (Hdel : active_clients (handle_client_failure c m)
                 = delete c (active_clients m)).
  { unfold handle_client_failure.
    destruct (active_clients m !! c) eqn:Hc; simpl; [done|].
    by rewrite delete_id. }
  assert (Hpeers : peers (handle_client_failure c m) = peers m).
  { unfold handle_client_failure. by destruct (active_clients m !! c). }
  split; [|split; [done|split; [done|]]].
  - unfold handle_client_failure at 1. rewrite Hdel, lookup_delete_eq. done.
  - unfold get_new_peer. rewrite Hpeers, Hdel.
    destruct (peers m) as [|a rest]; [done|].
    by rewrite insert_delete_eq.
Qed.

Lemma allocate_all_cons c cs m :
  allocate_all (c :: cs) m
  = ((get_new_peer c m).1 :: (allocate_all cs (get_new_peer c m).2).1,
     (allocate_all cs (get_new_peer c m).2).2).
Proof.
  simpl. destruct (get_new_peer c m) as [r m1]. simpl.
  by destruct (allocate_all cs m1).
Qed.

(** X3: the pool is served first in, first out.  A run of allocations
    hands out the addresses of the pool in pool order, one per call
    whichever client asks, answers [None] from the moment the pool is
    used up, and leaves the addresses not handed out in their order. *)
Theorem allocation_is_fifo (client_ids : list Z) (m : t) :
  (allocate_all client_ids m).1
  = (Some <$> take (length client_ids) (peers m))
    ++ replicate (length client_ids - length (peers m)) None
  ∧ peers (allocate_all client_ids m).2 = drop (length client_ids) (peers m).
Proof.
  revert m. induction client_ids as [|c cs IH]; intros m.
  - simpl. by rewrite drop_0.
  - rewrite allocate_all_cons. cbn [fst snd length].
    destruct (IH (get_new_peer c m).2) as [IH1 IH2]. rewrite IH1, IH2.
    unfold get_new_peer. destruct (peers m) as [|a rest] eqn:Hp; simpl.
    + rewrite Hp, take_nil, drop_nil. simpl. by rewrite Nat.sub_0_r.
    + done.
Qed.

Lemma added_app ops1 ops2 : added (ops1 ++ ops2) = added ops1 ++ added ops2.
Proof. unfold added. apply omap_app. Qed.

Lemma step_holds_known (m : t) (o : op) (a : PeerAddress) :
  a ∈ peers (step m o) ∨ assigned a (step m o) →
  a ∈ peers m ∨ assigned a m ∨ a ∈ added [o].
Proof.
  destruct o as [h p|c|h p|c]; simpl.
  - intros [[Hin| ->%list_elem_of_singleton]%elem_of_app|Has]; auto.
    right. right. by left.
  - unfold get_new_peer. destruct (peers m) as [|x rest] eqn:Hp; simpl.
    { rewrite Hp. tauto. }
    intros [Hin|[c' Hc']]; [left; by right|]. simpl in Hc'.
    rewrite lookup_insert in Hc'. case_decide; simplify_eq.
    + left. by left.
    + right. left. by exists c'.
  - unfold remove_peer. simpl. case_decide; simpl; [|tauto].
    intros [Hin%ManagerFacts.list_remove_first_subseteq|Has]; auto.
  - unfold handle_client_failure.
    destruct (active_clients m !! c); simpl; [|tauto].
    intros [Hin|[c' Hc']]; [auto|]. simpl in Hc'.
    apply lookup_delete_Some in Hc' as [_ Hc']. right. left. by exists c'.
Qed.

(** X4: the manager never makes up an address.  Whatever the sequence
    of operations, an address found afterwards in the pool or in the
    assignment table was in the pool or the table before, or was passed
    to [add_peer] by the sequence. *)
Theorem manager_holds_only_added (ops : list op) (m : t) (a : PeerAddress) :
  a ∈ peers (run ops m) ∨ assigned a (run ops m) →
  a ∈ peers m ∨ assigned a m ∨ a ∈ added ops.
Proof.
  revert m. induction ops as [|o ops IH]; intros m H; [cbn in H; tauto|].
  change (run (o :: ops) m) with (run ops (step m o)) in H.
  assert (Hcons : a ∈ added [o] ∨ a ∈ added ops → a ∈ added (o :: ops)).
  { change (o :: ops) with ([o] ++ ops). rewrite added_app, elem_of_app.
    tauto. }
  apply IH in H as [H|[H|H]].
  - destruct (step_holds_known m o a (or_introl H)) as [?|[?|Ho]]; auto.
  - destruct (step_holds_known m o a (or_intror H)) as [?|[?|Ho]]; auto.
  - auto.
Qed.

Lemma manager_holds_only_added_witness :
  ("B", 2) ∈ peers init ∨ assigned ("B", 2) init
  ∨ ("B", 2) ∈ added [AddPeer "A" 1; AddPeer "B" 2; GetNewPeer 7].
Proof.
  apply (manager_holds_only_added
           [AddPeer "A" 1; AddPeer "B" 2; GetNewPeer 7] init ("B", 2)).
  left. vm_compute. by left.
Defined.

(** X5: as long as every [add_peer] brings an address the manager does
    not hold, the pool never lists an address twice and never lists an
    address that is assigned to a client, whatever allocations, removals
    and failure reports are interleaved. *)
Theorem pool_and_table_stay_apart (ops : list op) :
  adds_fresh init ops = true →
  NoDup (peers (run ops init))
  ∧ ∀ a, assigned a (run ops init) → a ∉ peers (run ops init).
Proof.
  intros Hfresh.
  destruct (ManagerFacts.linear_run ops init ManagerFacts.linear_init Hfresh)
    as (Hnd & Hdisj & _).
  by split.
Qed.

Lemma pool_and_table_stay_apart_witness :
  NoDup (peers (run [AddPeer "A" 1; AddPeer "B" 2; GetNewPeer 1;
                     AddPeer "C" 3; RemovePeer "B" 2] init))
  ∧ ∀ a, assigned a (run [AddPeer "A" 1; AddPeer "B" 2; GetNewPeer 1;
                          AddPeer "C" 3; RemovePeer "B" 2] init)
         → a ∉ peers (run [AddPeer "A" 1; AddPeer "B" 2; GetNewPeer 1;
                           AddPeer "C" 3; RemovePeer "B" 2] init).
Proof. apply pool_and_table_stay_apart. vm_compute. reflexivity. Defined.

End ManagerScriptFacts.

(** ** Reconnecting client: outcome, bookkeeping, failover *)

Module ClientMoreFacts.
Import Client ClientObs ClientFacts.

Lemma handle_client_failure_lookup c m :
  Manager.active_clients (Manager.handle_client_failure c m) !! c = None.
Proof.
  unfold Manager.handle_client_failure.
  destruct (Manager.active_clients m !! c) eqn:Hc; simpl; [|done].
  apply lookup_delete_eq.
Qed.

Lemma handle_client_failure_peers c m :
  Manager.peers (Manager.handle_client_failure c m) = Manager.peers m.
Proof.
  unfold Manager.handle_client_failure.
  by destruct (Manager.active_clients m !! c).
Qed.

Lemma handle_client_failure_lookup_ne c other m :
  other ≠ c →
  Manager.active_clients (Manager.handle_client_failure c m) !! other
  = Manager.active_clients m !! other.
Proof.
  intros Hne. unfold Manager.handle_client_failure.
  destruct (Manager.active_clients m !! c) eqn:Hc; simpl; [|done].
  by apply lookup_delete_ne.
Qed.

Lemma count_no_io tr :
  count is_io tr = 0%nat →
  count is_sendall tr = 0%nat ∧ count is_recv tr = 0%nat.
Proof.
  induction tr as [|e tr IH]; simpl; [done|].
  destruct e; simpl; intros H; try discriminate; auto.
Qed.

Section Reconnect.
Variable N : net.

(** What one run of the retry loop keeps and establishes. *)
Lemma reconnect_loop_inv k c w ok c' w' :
  reconnect_loop N k c w = (ok, c', w') →
  client_id c' = client_id c
  ∧ max_retries c' = max_retries c
  ∧ timeout c' = timeout c
  ∧ (ok = true → connected c' = true)
  ∧ (ok = false → Manager.active_clients (manager w') !! client_id c = None)
  ∧ (ok = false → client_socket c ≠ None ∨ k ≠ 0%nat → connected c' = false)
  ∧ (∀ other, other ≠ client_id c →
       Manager.active_clients (manager w') !! other
       = Manager.active_clients (manager w) !! other)
  ∧ ∃ n, (n ≤ k)%nat
         ∧ Manager.peers (manager w') = drop n (Manager.peers (manager w)).
Proof.
  revert c w. induction k as [|k IH]; intros c w Hrun.
  - simpl in Hrun. unfold notify_manager_failure, close in Hrun.
    destruct (client_socket c) eqn:Hs; simpl in Hrun;
      injection Hrun as <- <- <-; simpl;
      repeat split; try done;
      try (intros _; apply handle_client_failure_lookup);
      try (by intros _ [?|?]);
      try (intros other Hother; by apply handle_client_failure_lookup_ne);
      exists 0%nat; (split; [lia|]); rewrite drop_0;
      apply handle_client_failure_peers.
  - simpl in Hrun. revert Hrun.
    destruct (connected c) eqn:Hconn; [unfold close at 1|];
      destruct (client_socket c) eqn:Hsock; unfold connect; simpl;
      destruct (connect_ok N (clock w) (host_ip c, host_port c)) eqn:Hok;
      simpl;
      try (intros [= <- <- <-]; simpl; repeat split; try done;
           exists 0%nat; split; [lia|]; by rewrite drop_0);
      unfold request_new_peer, Manager.get_new_peer; simpl;
      destruct (Manager.peers (manager w)) as [|a rest] eqn:Hpeers; simpl;
      intros Hrun; apply IH in Hrun;
      destruct Hrun as (Hid & Hmax & Htime & Htrue & Hfalse
                        & Hconnf & Hframe & n & Hn & Hdrop);
      simpl in *; rewrite ?handle_client_failure_peers in Hdrop;
      simpl in *; rewrite ?Hpeers in Hdrop;
      repeat split; try done;
      try (intros Hf _; apply Hconnf; [done|left; done]);
      try (intros other Hother; rewrite (Hframe other Hother);
           rewrite ?handle_client_failure_lookup_ne by done;
           rewrite ?lookup_insert_ne by done; done);
      first [exists n; split; [lia|]; rewrite Hdrop; by destruct n
            |exists (S n); split; [lia|done]].
Qed.

Lemma reconnect_inv c w ok c' w' :
  reconnect N c w = (ok, c', w') →
  client_id c' = client_id c
  ∧ max_retries c' = max_retries c
  ∧ timeout c' = timeout c
  ∧ (ok = true → connected c' = true)
  ∧ (ok = false → Manager.active_clients (manager w') !! client_id c = None)
  ∧ (ok = false → client_socket c ≠ None ∨ 0 < max_retries c →
     connected c' = false)
  ∧ (∀ other, other ≠ client_id c →
       Manager.active_clients (manager w') !! other
       = Manager.active_clients (manager w) !! other)
  ∧ ∃ n, (n ≤ Z.to_nat (max_retries c))%nat
         ∧ Manager.peers (manager w') = drop n (Manager.peers (manager w)).
Proof.
  intros Hrun. apply reconnect_loop_inv in Hrun.
  destruct Hrun as (? & ? & ? & ? & ? & Hconnf & ? & ?).
  repeat split; try done.
  intros Hf [Hs|Hm]; apply Hconnf; [done|by left|done|right; lia].
Qed.

End Reconnect.

(** X6: the value [reconnect] returns is the [connected] flag it
    leaves, for a client that has a socket or a positive retry budget:
    [True] means connected, [False] means disconnected. *)
Theorem reconnect_returns_connected (N : net) (c : t) (w : world) :
  client_socket c ≠ None ∨ 0 < max_retries c →
  connected (reconnect N c w).1.2 = (reconnect N c w).1.1.
Proof.
  intros Hpre. destruct (reconnect N c w) as [[ok c'] w'] eqn:Hrun.
  apply reconnect_inv in Hrun as (_ & _ & _ & Htrue & _ & Hfalse & _).
  simpl. destruct ok; auto.
Qed.

Lemma reconnect_returns_connected_witness :
  connected (reconnect late_net (init 7 "A" 1 10 2)
               (fresh_world Manager.init)).1.2
  = (reconnect late_net (init 7 "A" 1 10 2) (fresh_world Manager.init)).1.1.
Proof.
  apply (reconnect_returns_connected late_net (init 7 "A" 1 10 2)).
  right. simpl. lia.
Defined.

(** X7: when [reconnect] returns [False] the assignment table has no
    entry for the client any more, whatever it held before and whatever
    peers were granted on the way. *)
Theorem reconnect_failure_releases (N : net) (c : t) (w : world) :
  (reconnect N c w).1.1 = false →
  Manager.active_clients (manager (reconnect N c w).2) !! client_id c = None.
Proof.
  destruct (reconnect N c w) as [[ok c'] w'] eqn:Hrun. simpl. intros ->.
  apply reconnect_inv in Hrun as (_ & _ & _ & _ & Hfalse & _). auto.
Qed.

Lemma reconnect_failure_releases_witness :
  let m := Manager.run [Manager.AddPeer "A" 1; Manager.GetNewPeer 7;
                        Manager.AddPeer "B" 2] Manager.init in
  Manager.active_clients
    (manager (reconnect dead_net (init 7 "A" 1 10 3) (fresh_world m)).2) !! 7
  = None.
Proof.
  apply (reconnect_failure_releases dead_net (init 7 "A" 1 10 3)).
  reflexivity.
Defined.

(** X8: [reconnect] touches the manager only on behalf of its own
    client.  It takes peers from the head of the pool, at most
    [max_retries] of them, and never puts one back; the entries of the
    other clients are as before; and the client keeps its id, its retry
    budget and its timeout. *)
Theorem reconnect_frame (N : net) (c : t) (w : world) :
  (∃ n, (n ≤ Z.to_nat (max_retries c))%nat
        ∧ Manager.peers (manager (reconnect N c w).2)
          = drop n (Manager.peers (manager w)))
  ∧ filter (λ kv, kv.1 ≠ client_id c)
      (Manager.active_clients (manager (reconnect N c w).2))
    = filter (λ kv, kv.1 ≠ client_id c) (Manager.active_clients (manager w))
  ∧ client_id (reconnect N c w).1.2 = client_id c
  ∧ max_retries (reconnect N c w).1.2 = max_retries c
  ∧ timeout (reconnect N c w).1.2 = timeout c.
Proof.
  destruct (reconnect N c w) as [[ok c'] w'] eqn:Hrun. simpl.
  apply reconnect_inv in Hrun
    as (Hid & Hmax & Htime & _ & _ & _ & Hframe & Hdrop).
  split; [done|]. split; [|done].
  apply map_eq. intros other. rewrite !map_lookup_filter.
  destruct (decide (other = client_id c)) as [->|Hne].
  - destruct (Manager.active_clients (manager w') !! client_id c),
      (Manager.active_clients (manager w) !! client_id c); simpl;
      rewrite ?option_guard_False by (simpl; tauto); done.
  - by rewrite Hframe.
Qed.

(** X9: when the first connection attempt succeeds, [reconnect] returns
    [True] after that single attempt and never turns to the manager: the
    pool and the table are untouched and the client keeps its target. *)
Theorem reconnect_first_attempt (N : net) (c : t) (w : world) :
  0 < max_retries c →
  connect_ok N (clock w) (host_ip c, host_port c) = true →
  (reconnect N c w).1.1 = true
  ∧ manager (reconnect N c w).2 = manager w
  ∧ (host_ip (reconnect N c w).1.2, host_port (reconnect N c w).1.2)
    = (host_ip c, host_port c)
  ∧ ∃ tr, trace (reconnect N c w).2 = trace w ++ tr
          ∧ connect_targets tr = [(host_ip c, host_port c)]
          ∧ count_requests tr = 0%nat.
Proof.
  intros Hpos Hok.
  destruct (reconnect N c w) as [[ok c'] w'] eqn:Hrun. revert Hrun.
  unfold reconnect.
  destruct (Z.to_nat (max_retries c)) as [|k] eqn:Hk; [lia|]. simpl.
  destruct (connected c) eqn:Hconn; [unfold close at 1|];
    destruct (client_socket c) eqn:Hsock; unfold connect; simpl;
    rewrite Hok; simpl; intros [= <- <- <-]; simpl;
    (repeat split; try done);
    norm; eexists; (split; [reflexivity|]); done.
Qed.

Lemma reconnect_first_attempt_witness :
  let c := established 7 "A" 1 10 5 in
  let w := fresh_world Manager.init in
  (reconnect broken_pipe_net c w).1.1 = true
  ∧ manager (reconnect broken_pipe_net c w).2 = manager w
  ∧ (host_ip (reconnect broken_pipe_net c w).1.2,
     host_port (reconnect broken_pipe_net c w).1.2)
    = (host_ip c, host_port c)
  ∧ ∃ tr, trace (reconnect broken_pipe_net c w).2 = trace w ++ tr
          ∧ connect_targets tr = [(host_ip c, host_port c)]
          ∧ count_requests tr = 0%nat.
Proof.
  apply (reconnect_first_attempt broken_pipe_net (established 7 "A" 1 10 5)
           (fresh_world Manager.init)).
  - simpl. lia.
  - reflexivity.
Defined.

(** X10: with a retry budget of zero or less, [reconnect] makes no
    connection attempt and asks for no peer: it reports the failure to
    the manager, closes the socket if there is one, and returns
    [False]. *)
Theorem reconnect_without_budget (N : net) (c : t) (w : world) :
  max_retries c ≤ 0 →
  (reconnect N c w).1.1 = false
  ∧ manager (reconnect N c w).2
    = Manager.handle_client_failure (client_id c) (manager w)
  ∧ trace (reconnect N c w).2
    = trace w ++ EFailure (client_id c)
              :: match client_socket c with
                 | Some _ => [EClose]
                 | None => []
                 end.
Proof.
  intros Hmax.
  destruct (reconnect N c w) as [[ok c'] w'] eqn:Hrun. revert Hrun.
  unfold reconnect.
  replace (Z.to_nat (max_retries c)) with 0%nat by lia. simpl.
  unfold notify_manager_failure, close.
  destruct (client_socket c); simpl; intros [= <- <- <-]; by norm.
Qed.

Lemma reconnect_without_budget_witness :
  let c := established 7 "A" 1 10 0 in
  let w := fresh_world Manager.init in
  (reconnect broken_pipe_net c w).1.1 = false
  ∧ manager (reconnect broken_pipe_net c w).2
    = Manager.handle_client_failure (client_id c) (manager w)
  ∧ trace (reconnect broken_pipe_net c w).2
    = trace w ++ EFailure (client_id c)
              :: match client_socket c with
                 | Some _ => [EClose]
                 | None => []
                 end.
Proof.
  apply (reconnect_without_budget broken_pipe_net (established 7 "A" 1 10 0)
           (fresh_world Manager.init)).
  simpl. lia.
Defined.

Lemma connect_targets_app tr1 tr2 :
  connect_targets (tr1 ++ tr2) = connect_targets tr1 ++ connect_targets tr2.
Proof.
  induction tr1 as [|e tr1 IH]; simpl; [done|].
  destruct e; simpl; by rewrite ?IH.
Qed.

(** A loop with at least one iteration left starts by an attempt on
    the client's current target. *)
Lemma reconnect_loop_first_target (N : net) k c w :
  ∃ tr targets,
    trace (reconnect_loop N (S k) c w).2 = trace w ++ tr
    ∧ connect_targets tr = (host_ip c, host_port c) :: targets.
Proof.
  simpl.
  destruct (connected c) eqn:Hconn; [unfold close at 1|];
    destruct (client_socket c) eqn:Hsock; unfold connect; simpl;
    destruct (connect_ok N (clock w) (host_ip c, host_port c)) eqn:Hok;
    simpl;
    try (norm; eexists _, []; split; reflexivity);
    unfold request_new_peer, Manager.get_new_peer; simpl;
    destruct (Manager.peers (manager w)) as [|a rest] eqn:Hpeers; simpl;
    match goal with
    | |- context [reconnect_loop N k ?c' ?w'] =>
        destruct (reconnect_loop_extends N k c' w') as (tr & Htr & _ & _);
        rewrite Htr
    end;
    norm; eexists _, (connect_targets tr); (split; [reflexivity|]);
    simpl; by rewrite ?connect_targets_app.
Qed.

(** One failed attempt on a non-empty pool: the client is given the
    head of the pool and the loop goes on against it. *)
Lemma reconnect_loop_fail_step (N : net) k c w a rest :
  connect_ok N (clock w) (host_ip c, host_port c) = false →
  Manager.peers (manager w) = a :: rest →
  ∃ c1 w1 pre,
    reconnect_loop N (S k) c w = reconnect_loop N k c1 w1
    ∧ (host_ip c1, host_port c1) = a
    ∧ trace w1 = trace w ++ pre ++ [EConnect (host_ip c, host_port c) false;
                                    ERequest (client_id c) (Some a)]
    ∧ connect_targets pre = [].
Proof.
  intros Hfail Hpool. simpl.
  destruct (connected c) eqn:Hconn; [unfold close at 1|];
    destruct (client_socket c) eqn:Hsock; unfold connect; simpl;
    rewrite Hfail; simpl;
    unfold request_new_peer, Manager.get_new_peer; simpl;
    rewrite Hpool; simpl;
    eexists _, _; first
      [ exists [EClose]; split; [reflexivity|]; split; [by destruct a|];
        norm; by split
      | exists []; split; [reflexivity|]; split; [by destruct a|];
        norm; by split ].
Qed.

(** X11: failover switches the target.  When the first attempt fails,
    the pool is not empty and the budget allows a second attempt, the
    client is assigned the head of the pool and its next connection
    attempt goes to that address. *)
Theorem reconnect_fails_over (N : net) (c : t) (w : world)
    (a : PeerAddress) (rest : list PeerAddress) :
  2 ≤ max_retries c →
  connect_ok N (clock w) (host_ip c, host_port c) = false →
  Manager.peers (manager w) = a :: rest →
  ∃ tr targets,
    trace (reconnect N c w).2 = trace w ++ tr
    ∧ connect_targets tr = (host_ip c, host_port c) :: a :: targets
    ∧ ERequest (client_id c) (Some a) ∈ tr.
Proof.
  intros Hmax Hfail Hpool. unfold reconnect.
  destruct (Z.to_nat (max_retries c)) as [|[|k]] eqn:Hk; [lia|lia|].
  destruct (reconnect_loop_fail_step N (S k) c w a rest Hfail Hpool)
    as (c1 & w1 & pre & -> & Hhost & Htr1 & Hpre).
  destruct (reconnect_loop_first_target N k c1 w1) as (tr & targets & -> & Htr).
  rewrite Htr1, Hhost in *.
  exists (pre ++ [EConnect (host_ip c, host_port c) false;
                  ERequest (client_id c) (Some a)] ++ tr), targets.
  split; [by rewrite <- !app_assoc|]. split.
  - rewrite !connect_targets_app, Hpre, Htr. reflexivity.
  - set_solver.
Qed.

Lemma reconnect_fails_over_witness :
  let m := Manager.run [Manager.AddPeer "B" 2; Manager.AddPeer "C" 3]
             Manager.init in
  let c := init 7 "A" 1 10 2 in
  ∃ tr targets,
    trace (reconnect dead_net c (fresh_world m)).2
    = trace (fresh_world m) ++ tr
    ∧ connect_targets tr = (host_ip c, host_port c) :: ("B", 2) :: targets
    ∧ ERequest (client_id c) (Some ("B", 2)) ∈ tr.
Proof.
  apply (reconnect_fails_over dead_net (init 7 "A" 1 10 2) _ ("B", 2)
           [("C", 3)]).
  - simpl. lia.
  - reflexivity.
  - reflexivity.
Defined.

(** X12: [send] on a disconnected client whose reconnection fails
    performs no socket read or write at all and returns [None]: the data
    is dropped. *)
Theorem send_offline_no_io (N : net) (data : Json.t) (c : t) (w : world) :
  connected c = false →
  (reconnect N c w).1.1 = false →
  (send N data c w).1.1 = Return Json.JNull
  ∧ ∃ tr, trace (send N data c w).2 = trace w ++ tr
          ∧ count is_sendall tr = 0%nat
          ∧ count is_recv tr = 0%nat.
Proof.
  intros Hconn Hfail. unfold send. rewrite Hconn.
  destruct (reconnect_extends N c w) as (tr & Htr & _ & Hio).
  destruct (reconnect N c w) as [[ok c'] w']. simpl in *. subst ok.
  split; [done|]. exists tr. split; [done|]. by apply count_no_io.
Qed.

Lemma send_offline_no_io_witness :
  let c := init 7 "A" 1 10 2 in
  let w := fresh_world Manager.init in
  (send dead_net (Json.JInt 5) c w).1.1 = Return Json.JNull
  ∧ ∃ tr, trace (send dead_net (Json.JInt 5) c w).2 = trace w ++ tr
          ∧ count is_sendall tr = 0%nat
          ∧ count is_recv tr = 0%nat.
Proof.
  apply (send_offline_no_io dead_net (Json.JInt 5) (init 7 "A" 1 10 2)
           (fresh_world Manager.init)); reflexivity.
Defined.

(** X13: what [send] writes, [receive] reads back.  On a connected
    client whose write succeeds, [send] makes one [sendall] call with the
    serialised document, changes neither the client nor the manager, and
    a connected [receive] whose read returns exactly those bytes returns
    the document that was sent. *)
Theorem send_then_receive (N : net) (data : Json.t) (c : t) (w : world) :
  Json.wf data →
  connected c = true →
  sendall_ok N (clock w) (Json.dumps data) = true →
  send N data c w
  = (Return Json.JNull, c, emit (ESendall (Json.dumps data) true) (tick w))
  ∧ ∀ N' c' w',
      connected c' = true →
      recv_at N' (clock w') = Some (Json.dumps data) →
      (receive N' loads_utf8 c' w').1.1 = Return data.
Proof.
  intros Hwf Hconn Hok. split.
  - unfold send, send_try. by rewrite Hconn, JsonFacts.encode_dumps, Hok.
  - intros N' c' w' Hconn' Hrecv. unfold receive, receive_try.
    rewrite Hconn', Hrecv. unfold loads_utf8.
    rewrite Utf8Facts.decode_ascii
      by apply Utf8Facts.printable_ascii, JsonFacts.dumps_printable.
    by rewrite JsonRoundTrip.loads_dumps.
Qed.

Lemma send_then_receive_witness :
  let data := Json.JArr [Json.JInt 1; Json.JNull] in
  let c := established 7 "A" 1 10 5 in
  let w := fresh_world Manager.init in
  send late_net data c (tick w)
  = (Return Json.JNull, c,
     emit (ESendall (Json.dumps data) true) (tick (tick w)))
  ∧ ∀ N' c' w',
      connected c' = true →
      recv_at N' (clock w') = Some (Json.dumps data) →
      (receive N' loads_utf8 c' w').1.1 = Return data.
Proof.
  apply (send_then_receive late_net (Json.JArr [Json.JInt 1; Json.JNull])
           (established 7 "A" 1 10 5) (tick (fresh_world Manager.init)));
    [|reflexivity..].
  cbn. tauto.
Defined.

(** X14: an orderly shutdown by the peer is a read of zero bytes, and
    [receive] passes it to [json.loads] like any other read: the call
    raises the decoding error, it does not return [None], and the client
    stays marked as connected. *)
Theorem receive_on_shutdown_raises (N : net) (c : t) (w : world) :
  connected c = true →
  recv_at N (clock w) = Some [] →
  receive N loads_utf8 c w
  = (Raise JSONDecodeError, c, emit (ERecv (Some [])) (tick w)).
Proof.
  intros Hconn Hrecv. unfold receive, receive_try.
  by rewrite Hconn, Hrecv.
Qed.

Lemma receive_on_shutdown_raises_witness :
  let c := established 7 "A" 1 10 5 in
  let w := tick (fresh_world Manager.init) in
  receive late_net loads_utf8 c w
  = (Raise JSONDecodeError, c, emit (ERecv (Some [])) (tick w)).
Proof.
  apply (receive_on_shutdown_raises late_net (established 7 "A" 1 10 5)
           (tick (fresh_world Manager.init))); reflexivity.
Defined.

(** X15: one call of [send] writes to the socket at most once and never
    reads from it; in particular the data of a failed write is not sent
    again after the reconnection. *)
Theorem send_writes_at_most_once (N : net) (data : Json.t) (c : t) (w : world) :
  ∃ tr, trace (send N data c w).2 = trace w ++ tr
        ∧ (count is_sendall tr ≤ 1)%nat
        ∧ count is_recv tr = 0%nat.
Proof.
  assert (Htry : ∀ c0 w0,
    ∃ tr, trace (send_try N data c0 w0).2 = trace w0 ++ tr
          ∧ (count is_sendall tr ≤ 1)%nat ∧ count is_recv tr = 0%nat).
  { intros c0 w0. unfold send_try. rewrite JsonFacts.encode_dumps.
    destruct (sendall_ok N (clock w0) (Json.dumps data)) eqn:Hok.
    - eexists. split; [by norm|]. simpl. split; [lia|done].
    - match goal with
      | |- context [reconnect N c0 ?w'] =>
          destruct (reconnect_extends N c0 w') as (tr & Htr & _ & Hio);
          destruct (reconnect N c0 w') as [[ok c'] w'']
      end.
      simpl in *. rewrite Htr. destruct (count_no_io tr Hio) as [Hs Hr].
      exists (ESendall (Json.dumps data) false :: tr).
      split; [by norm|]. simpl. rewrite Hs, Hr. split; [lia|done]. }
  unfold send. destruct (connected c); [apply Htry|].
  destruct (reconnect_extends N c w) as (tr & Htr & _ & Hio).
  destruct (reconnect N c w) as [[ok c'] w']. simpl in Htr.
  destruct (count_no_io tr Hio) as [Hs Hr]. destruct ok.
  - destruct (Htry c' w') as (tr' & Htr' & Hs' & Hr').
    exists (tr ++ tr'). rewrite Htr', Htr, <- app_assoc.
    split; [done|]. rewrite !count_app, Hs, Hr, Hr'. split; [lia|done].
  - exists tr. simpl. rewrite Hs, Hr. split; [done|]. split; [lia|done].
Qed.

End ClientMoreFacts.

(** ** JSON-RPC handler: requests, responses, a round of the demo *)

Module HandlerFacts.
Import P2p P2pObs.

Lemma dict_get_in k (d : list (pystr * Json.t)) v :
  Json.dict_get k d = Some v → k ∈ d.*1.
Proof.
  induction d as [|[k' v'] d IH]; simpl; [done|].
  destruct (decide (k' = k)) as [->|Hne]; [intros _; by left|].
  intros H. right. auto.
Qed.

Lemma wrote_wrote k l1 l2 : wrote (wrote k l1) l2 = wrote k (l1 ++ l2).
Proof.
  unfold wrote. simpl. f_equal; [by rewrite app_assoc|].
  rewrite length_app. lia.
Qed.

Lemma wrote_nil k : wrote k [] = k.
Proof.
  unfold wrote. destruct k. simpl. f_equal; [by rewrite app_nil_r|lia].
Qed.

Section Handler.
Variable wire : nat → bool.
Variable loads : pystr → option Json.t.

Lemma send_text_frame message k :
  send_text wire (frame message) k
  = if wire (writes k) then (Return (), wrote k [frame message])
    else (Raise SocketError, write_failed k).
Proof.
  unfold send_text, mbind, M_bind, bind.
  rewrite Utf8Facts.encode_ascii by apply CodecFacts.frame_ascii.
  simpl. unfold sendall, wrote, write_failed.
  destruct (wire (writes k)); [|done]. simpl. do 2 f_equal. lia.
Qed.

Lemma py_print_accepted (peer_type : string) (text : string) x k :
  print_accepts x →
  py_print (py peer_type ++ py text) x k = (Return (), k).
Proof.
  destruct x as [| | |s| |]; try done. intros Hs. unfold py_print.
  destruct (Utf8Facts.encode_scalar ((py peer_type ++ py text) ++ s))
    as [bs Hbs].
  - repeat (apply Forall_app; split);
      [apply Utf8Facts.py_scalar..|exact Hs].
  - unfold mbind, M_bind, bind. by rewrite Hbs.
Qed.


Lemma looks_like_request_dict d k :
  looks_like_request (Json.JObj d) k
  = (Return (bool_decide (py "method" ∈ d.*1)
             && bool_decide (py "params" ∈ d.*1)
             && bool_decide (py "id" ∈ d.*1)), k).
Proof.
  unfold looks_like_request, mbind, M_bind, bind. cbn [py_in eval ret].
  destruct (bool_decide (py "method" ∈ d.*1)); [|done].
  cbn [py_in eval ret andb].
  destruct (bool_decide (py "params" ∈ d.*1)); done.
Qed.

Lemma looks_like_response_dict d k :
  looks_like_response (Json.JObj d) k
  = (Return (bool_decide (py "result" ∈ d.*1)
             || bool_decide (py "error" ∈ d.*1)), k).
Proof.
  unfold looks_like_response, mbind, M_bind, bind. cbn [py_in eval ret].
  destruct (bool_decide (py "result" ∈ d.*1)); done.
Qed.

(** The [try] block on a request: the three items are read and the
    request branch runs. *)
Lemma handle_json_rpc_try_request data d method params id peer_type k :
  loads data = Some (Json.JObj d) →
  Json.dict_get (py "method") d = Some method →
  Json.dict_get (py "params") d = Some params →
  Json.dict_get (py "id") d = Some id →
  handle_json_rpc_try wire loads data peer_type k
  = if py_eq_str method (py "echo") then
      match py_print (py peer_type ++ py " received: ") params k with
      | (Return _, k0) =>
          match send_text wire (frame (echo_response id params)) k0 with
          | (Return _, k1) =>
              if bool_decide (peer_type = "Server") then
                match py_add_one id with
                | Return next_id => send_hello_world wire next_id k1
                | Raise e => (Raise e, k1)
                end
              else (Return (), k1)
          | (Raise e, k1) => (Raise e, k1)
          end
      | (Raise e, k0) => (Raise e, k0)
      end
    else send_text wire (frame (method_not_found id)) k.
Proof.
  intros Hloads Hm Hp Hi.
  unfold handle_json_rpc_try, mbind, M_bind, bind at 1. rewrite Hloads.
  cbn [lift ret]. unfold handle_message_try, mbind, M_bind, bind at 1.
  rewrite looks_like_request_dict.
  rewrite !bool_decide_eq_true_2 by eauto using dict_get_in.
  cbn [andb]. unfold handle_request, mbind, M_bind, bind.
  cbn [py_getitem]. rewrite Hm, Hp, Hi. cbn [eval ret].
  destruct (py_eq_str method (py "echo")); [|done].
  destruct (py_print (py peer_type ++ py " received: ") params k)
    as [[[]|e0] k0]; [|done].
  destruct (send_text wire (frame (echo_response id params)) k0)
    as [[[]|e] k1]; [|done].
  destruct (bool_decide (peer_type = "Server")); [|done].
  by destruct (py_add_one id).
Qed.

(** The [try] block on a document that is an object without one of
    the three request keys but with a [result] or an [error] key. *)
Lemma handle_json_rpc_try_response data d peer_type k :
  loads data = Some (Json.JObj d) →
  bool_decide (py "method" ∈ d.*1) && bool_decide (py "params" ∈ d.*1)
  && bool_decide (py "id" ∈ d.*1) = false →
  bool_decide (py "result" ∈ d.*1) || bool_decide (py "error" ∈ d.*1) = true →
  handle_json_rpc_try wire loads data peer_type k
  = handle_response wire (Json.JObj d) peer_type k.
Proof.
  intros Hloads Hreq Hresp.
  unfold handle_json_rpc_try, mbind, M_bind, bind at 1. rewrite Hloads.
  cbn [lift ret]. unfold handle_message_try, mbind, M_bind, bind at 1.
  rewrite looks_like_request_dict, Hreq.
  unfold bind at 1. by rewrite looks_like_response_dict, Hresp.
Qed.

(** The response branch on an object: its text is a [repr], which
    standard output accepts. *)
Lemma handle_response_dict d peer_type k :
  handle_response wire (Json.JObj d) peer_type k
  = if bool_decide (peer_type = "Client") then
      match Json.dict_get (py "id") d with
      | Some id =>
          match py_add_one id with
          | Return next_id => send_hello_world wire next_id k
          | Raise e => (Raise e, k)
          end
      | None => (Raise KeyError, k)
      end
    else (Return (), k).
Proof.
  unfold handle_response, mbind, M_bind, bind. cbn [py_print ret py_getitem].
  destruct (bool_decide (peer_type = "Client")); [|done].
  destruct (Json.dict_get (py "id") d) as [id|]; [|done].
  cbn [eval ret]. by destruct (py_add_one id).
Qed.

Lemma handle_json_rpc_ok data peer_type k k1 :
  handle_json_rpc_try wire loads data peer_type k = (Return (), k1) →
  handle_json_rpc wire loads data peer_type k = (Return (), k1).
Proof. intros H. unfold handle_json_rpc, try_except. by rewrite H. Qed.

Lemma handle_json_rpc_raise data peer_type k e k1 :
  handle_json_rpc_try wire loads data peer_type k = (Raise e, k1) →
  handle_json_rpc wire loads data peer_type k
  = send_text wire (frame error_response) k1.
Proof. intros H. unfold handle_json_rpc, try_except. by rewrite H. Qed.

End Handler.

(** X16: an [echo] request is answered by one message carrying the
    request's id and its parameters as the result, when the receiving
    peer is not the server, the parameters are not a string holding a
    surrogate (the handler prints them first) and the write goes
    through. *)
Theorem echo_request_answered (wire : nat → bool)
    (loads : pystr → option Json.t) (data : pystr)
    (d : list (pystr * Json.t)) (params id : Json.t) (peer_type : string)
    (k : socket) :
  loads data = Some (Json.JObj d) →
  Json.dict_get (py "method") d = Some (Json.JStr (py "echo")) →
  Json.dict_get (py "params") d = Some params →
  Json.dict_get (py "id") d = Some id →
  print_accepts params →
  peer_type ≠ "Server" →
  wire (writes k) = true →
  handle_json_rpc wire loads data peer_type k
  = (Return (), wrote k [frame (echo_response id params)]).
Proof.
  intros Hloads Hm Hp Hi Hprint Hpeer Hwire. apply handle_json_rpc_ok.
  rewrite (handle_json_rpc_try_request wire loads data d _ params id)
    by done.
  cbn [py_eq_str]. rewrite bool_decide_eq_true_2 by done.
  rewrite py_print_accepted by done.
  rewrite send_text_frame, Hwire. by rewrite bool_decide_eq_false_2.
Qed.

Lemma echo_request_answered_witness :
  handle_json_rpc (λ _, true) Json.loads
    (Json.dumps (request (py "echo") (Json.JStr (py "hi")) (Json.JInt 7)))
    "Client" fresh_socket
  = (Return (),
     wrote fresh_socket
       [frame (echo_response (Json.JInt 7) (Json.JStr (py "hi")))]).
Proof.
  apply (echo_request_answered (λ _, true) Json.loads _
           [(py "jsonrpc", Json.JStr (py "2.0"));
            (py "method", Json.JStr (py "echo"));
            (py "params", Json.JStr (py "hi"));
            (py "id", Json.JInt 7)]);
    try reflexivity.
  - apply (bool_decide_unpack _). vm_compute. reflexivity.
  - discriminate.
Defined.

(** X17: a request whose method is not [echo] is answered by one error
    message with code -32601 and the request's id, on a server and on a
    client alike. *)
Theorem unknown_method_answered (wire : nat → bool)
    (loads : pystr → option Json.t) (data : pystr)
    (d : list (pystr * Json.t)) (method params id : Json.t)
    (peer_type : string) (k : socket) :
  loads data = Some (Json.JObj d) →
  Json.dict_get (py "method") d = Some method →
  Json.dict_get (py "params") d = Some params →
  Json.dict_get (py "id") d = Some id →
  py_eq_str method (py "echo") = false →
  wire (writes k) = true →
  handle_json_rpc wire loads data peer_type k
  = (Return (), wrote k [frame (method_not_found id)]).
Proof.
  intros Hloads Hm Hp Hi Hne Hwire. apply handle_json_rpc_ok.
  rewrite (handle_json_rpc_try_request wire loads data d method params id)
    by done.
  by rewrite Hne, send_text_frame, Hwire.
Qed.

Lemma unknown_method_answered_witness :
  handle_json_rpc (λ _, true) Json.loads
    (Json.dumps (request (py "ping") Json.JNull (Json.JStr (py "a"))))
    "Server" fresh_socket
  = (Return (),
     wrote fresh_socket [frame (method_not_found (Json.JStr (py "a")))]).
Proof.
  apply (unknown_method_answered (λ _, true) Json.loads _
           [(py "jsonrpc", Json.JStr (py "2.0"));
            (py "method", Json.JStr (py "ping"));
            (py "params", Json.JNull);
            (py "id", Json.JStr (py "a"))]
           (Json.JStr (py "ping")) Json.JNull);
    reflexivity.
Defined.

(** X18: a server answers an [echo] request whose id is an integer and
    whose parameters are not a string holding a surrogate with two
    messages: the result under the request's id, then a request of its
    own whose id is the request's id plus one. *)
Theorem server_echo_then_hello (wire : nat → bool)
    (loads : pystr → option Json.t) (data : pystr)
    (d : list (pystr * Json.t)) (params : Json.t) (n : Z) (k : socket) :
  loads data = Some (Json.JObj d) →
  Json.dict_get (py "method") d = Some (Json.JStr (py "echo")) →
  Json.dict_get (py "params") d = Some params →
  Json.dict_get (py "id") d = Some (Json.JInt n) →
  print_accepts params →
  wire (writes k) = true →
  wire (S (writes k)) = true →
  handle_json_rpc wire loads data "Server" k
  = (Return (),
     wrote k [frame (echo_response (Json.JInt n) params);
              frame (hello_world (Json.JInt (n + 1)))]).
Proof.
  intros Hloads Hm Hp Hi Hprint Hw1 Hw2. apply handle_json_rpc_ok.
  rewrite (handle_json_rpc_try_request wire loads data d _ params
             (Json.JInt n)) by done.
  cbn [py_eq_str py_add_one]. rewrite bool_decide_eq_true_2 by done.
  rewrite py_print_accepted by done.
  rewrite send_text_frame, Hw1. rewrite bool_decide_eq_true_2 by done.
  unfold send_hello_world. rewrite send_text_frame.
  replace (writes (wrote k [frame (echo_response (Json.JInt n) params)]))
    with (S (writes k)) by (simpl; lia).
  by rewrite Hw2, wrote_wrote.
Qed.

Lemma server_echo_then_hello_witness :
  handle_json_rpc (λ _, true) Json.loads
    (Json.dumps (hello_world (Json.JInt 41))) "Server" fresh_socket
  = (Return (),
     wrote fresh_socket
       [frame (echo_response (Json.JInt 41) (Json.JStr (py "hello world")));
        frame (hello_world (Json.JInt (41 + 1)))]).
Proof.
  apply (server_echo_then_hello (λ _, true) Json.loads _
           [(py "jsonrpc", Json.JStr (py "2.0"));
            (py "method", Json.JStr (py "echo"));
            (py "params", Json.JStr (py "hello world"));
            (py "id", Json.JInt 41)]);
    try reflexivity.
  apply (bool_decide_unpack _). vm_compute. reflexivity.
Defined.

(** X19: a server that receives a well-formed [echo] request whose id
    is not a number (a string, [null], a list or an object) and whose
    parameters are not a string holding a surrogate sends the result and
    then, because [request_id + 1] raises, an Invalid-Request error with
    id [null]: the same request gets a result and an error. *)
Theorem server_echo_with_unaddable_id (wire : nat → bool)
    (loads : pystr → option Json.t) (data : pystr)
    (d : list (pystr * Json.t)) (params id : Json.t) (k : socket) :
  loads data = Some (Json.JObj d) →
  Json.dict_get (py "method") d = Some (Json.JStr (py "echo")) →
  Json.dict_get (py "params") d = Some params →
  Json.dict_get (py "id") d = Some id →
  print_accepts params →
  py_add_one id = Raise TypeError →
  wire (writes k) = true →
  wire (S (writes k)) = true →
  handle_json_rpc wire loads data "Server" k
  = (Return (),
     wrote k [frame (echo_response id params); frame error_response]).
Proof.
  intros Hloads Hm Hp Hi Hprint Hadd Hw1 Hw2.
  rewrite (handle_json_rpc_raise wire loads data "Server" k TypeError
             (wrote k [frame (echo_response id params)])).
  - rewrite send_text_frame.
    replace (writes (wrote k [frame (echo_response id params)]))
      with (S (writes k)) by (simpl; lia).
    by rewrite Hw2, wrote_wrote.
  - rewrite (handle_json_rpc_try_request wire loads data d _ params id)
      by done.
    cbn [py_eq_str]. rewrite bool_decide_eq_true_2 by done.
    rewrite py_print_accepted by done.
    rewrite send_text_frame, Hw1. rewrite bool_decide_eq_true_2 by done.
    by rewrite Hadd.
Qed.

Lemma server_echo_with_unaddable_id_witness :
  handle_json_rpc (λ _, true) Json.loads
    (Json.dumps (request (py "echo") (Json.JInt 1) (Json.JStr (py "a"))))
    "Server" fresh_socket
  = (Return (),
     wrote fresh_socket
       [frame (echo_response (Json.JStr (py "a")) (Json.JInt 1));
        frame error_response]).
Proof.
  apply (server_echo_with_unaddable_id (λ _, true) Json.loads _
           [(py "jsonrpc", Json.JStr (py "2.0"));
            (py "method", Json.JStr (py "echo"));
            (py "params", Json.JInt 1);
            (py "id", Json.JStr (py "a"))]);
    reflexivity.
Defined.



(** X20: a response (an object that is not a request and has a
    [result] or an [error] key) makes a peer that is not the client do
    nothing: nothing is written, whatever the state of the socket, and
    the handler returns normally. *)
Theorem response_ignored_unless_client (wire : nat → bool)
    (loads : pystr → option Json.t) (data : pystr)
    (d : list (pystr * Json.t)) (peer_type : string) (k : socket) :
  loads data = Some (Json.JObj d) →
  bool_decide (py "method" ∈ d.*1) && bool_decide (py "params" ∈ d.*1)
  && bool_decide (py "id" ∈ d.*1) = false →
  bool_decide (py "result" ∈ d.*1) || bool_decide (py "error" ∈ d.*1) = true →
  peer_type ≠ "Client" →
  handle_json_rpc wire loads data peer_type k = (Return (), k).
Proof.
  intros Hloads Hreq Hresp Hpeer. apply handle_json_rpc_ok.
  rewrite (handle_json_rpc_try_response wire loads data d) by done.
  rewrite handle_response_dict. by rewrite bool_decide_eq_false_2.
Qed.

Lemma response_ignored_unless_client_witness :
  handle_json_rpc (λ _, false) Json.loads
    (Json.dumps (echo_response (Json.JInt 7) (Json.JStr (py "hi"))))
    "Server" fresh_socket
  = (Return (), fresh_socket).
Proof.
  apply (response_ignored_unless_client (λ _, false) Json.loads _
           [(py "jsonrpc", Json.JStr (py "2.0"));
            (py "id", Json.JInt 7);
            (py "result", Json.JStr (py "hi"))]);
    try reflexivity.
  discriminate.
Defined.

(** X21: a client that receives a response with an integer id sends the
    next request of the demo: [echo] of ["hello world"] under the
    response's id plus one. *)
Theorem client_continues_after_response (wire : nat → bool)
    (loads : pystr → option Json.t) (data : pystr)
    (d : list (pystr * Json.t)) (n : Z) (k : socket) :
  loads data = Some (Json.JObj d) →
  bool_decide (py "method" ∈ d.*1) && bool_decide (py "params" ∈ d.*1)
  && bool_decide (py "id" ∈ d.*1) = false →
  bool_decide (py "result" ∈ d.*1) || bool_decide (py "error" ∈ d.*1) = true →
  Json.dict_get (py "id") d = Some (Json.JInt n) →
  wire (writes k) = true →
  handle_json_rpc wire loads data "Client" k
  = (Return (), wrote k [frame (hello_world (Json.JInt (n + 1)))]).
Proof.
  intros Hloads Hreq Hresp Hid Hwire. apply handle_json_rpc_ok.
  rewrite (handle_json_rpc_try_response wire loads data d) by done.
  rewrite handle_response_dict, bool_decide_eq_true_2, Hid by done.
  cbn [py_add_one]. unfold send_hello_world.
  by rewrite send_text_frame, Hwire.
Qed.

Lemma client_continues_after_response_witness :
  handle_json_rpc (λ _, true) Json.loads
    (Json.dumps (echo_response (Json.JInt 7) (Json.JStr (py "hi"))))
    "Client" fresh_socket
  = (Return (),
     wrote fresh_socket [frame (hello_world (Json.JInt (7 + 1)))]).
Proof.
  apply (client_continues_after_response (λ _, true) Json.loads _
           [(py "jsonrpc", Json.JStr (py "2.0"));
            (py "id", Json.JInt 7);
            (py "result", Json.JStr (py "hi"))]);
    reflexivity.
Defined.

(** X22: if the socket refuses the write of the Invalid-Request
    response, the exception leaves [handle_json_rpc]: nothing is recorded
    as sent, the inner loop stops at that line and the receive loop ends;
    the lines that follow in the buffer and the later reads are never
    handled. *)
Theorem invalid_line_write_failure (wire : nat → bool)
    (loads : pystr → option Json.t) (raw : bytes) (line rest : pystr)
    (reads : list (option bytes)) (peer_type : string) (k : socket) :
  invalid_line loads line →
  10 ∉ line →
  Utf8.decode raw = Some (line ++ 10 :: rest) →
  wire (writes k) = false →
  handle_json_rpc wire loads line peer_type k
  = (Raise SocketError, write_failed k)
  ∧ (handle_peer_connection wire loads (Some raw :: reads) peer_type k).1.1
    = Aborted SocketError
  ∧ (handle_peer_connection wire loads (Some raw :: reads) peer_type k).2
    = write_failed k.
Proof.
  intros Hinv Hline Hraw Hwire.
  assert (Hhandle : handle_json_rpc wire loads line peer_type k
                    = (Raise SocketError, write_failed k)).
  { destruct (P2pFacts.handle_json_rpc_try_invalid wire loads line peer_type
                k Hinv) as [e He].
    rewrite (handle_json_rpc_raise wire loads line peer_type k e k He).
    by rewrite send_text_frame, Hwire. }
  split; [done|].
  unfold handle_peer_connection. cbn [recv_loop]. rewrite Hraw.
  destruct line as [|c line]; cbn [app];
    rewrite P2pFacts.drain_step;
    [change (10 :: rest) with ([] ++ 10 :: rest)
    |change (c :: line ++ 10 :: rest) with ((c :: line) ++ 10 :: rest)];
    rewrite P2pFacts.split_newline_line by done; by rewrite Hhandle.
Qed.

Lemma invalid_line_write_failure_witness :
  handle_json_rpc (λ _, false) Json.loads (py "not-json") "Server"
    fresh_socket
  = (Raise SocketError, write_failed fresh_socket)
  ∧ (handle_peer_connection (λ _, false) Json.loads
       [Some (py "not-json" ++ 10 :: py "more"); Some (py "later")]
       "Server" fresh_socket).1.1
    = Aborted SocketError
  ∧ (handle_peer_connection (λ _, false) Json.loads
       [Some (py "not-json" ++ 10 :: py "more"); Some (py "later")]
       "Server" fresh_socket).2
    = write_failed fresh_socket.
Proof.
  apply (invalid_line_write_failure (λ _, false) Json.loads
           (py "not-json" ++ 10 :: py "more") (py "not-json") (py "more")
           [Some (py "later")] "Server" fresh_socket).
  - vm_compute. exact I.
  - vm_compute. intros Hin.
    repeat (apply elem_of_cons in Hin as [Hin|Hin]; [discriminate Hin|]).
    by apply elem_of_nil in Hin.
  - vm_compute. reflexivity.
  - reflexivity.
Defined.

End HandlerFacts.

(** ** Receive loop: shutdown, split characters, a round of the demo *)

Module LoopFacts.
Import P2p P2pObs.

Section Loop.
Variable handle : pystr → M unit.

(** The outer loop on non-empty chunks of ASCII text followed by further
    reads: the complete lines are handled, then the loop goes on with the
    unfinished line as its buffer. *)
Lemma recv_loop_chunks_then (chunks : list bytes) reads buffer k :
  Forall (λ chunk, chunk ≠ [] ∧ Forall (λ b, 0 ≤ b < 128) chunk) chunks →
  10 ∉ buffer →
  let r := recv_loop handle ((Some <$> chunks) ++ reads) buffer k in
  let text := buffer ++ concat chunks in
  match handle_each handle (lines_of text).1 k with
  | (Return _, k') => r = recv_loop handle reads (lines_of text).2 k'
  | (Raise e, k') => r.1.1 = Aborted e ∧ r.2 = k'
  end.
Proof.
  intros Hchunks. revert buffer k.
  induction Hchunks as [|chunk chunks [Hne Hascii] _ IH]; intros buffer k Hbuf.
  - cbn zeta. cbn [fmap list_fmap app concat].
    by rewrite app_nil_r, P2pFacts.lines_of_no_newline.
  - cbn zeta. cbn [fmap list_fmap app recv_loop concat].
    rewrite Utf8Facts.decode_ascii by done.
    destruct chunk as [|b chunk]; [done|].
    rewrite P2pFacts.drain_lines_of, app_assoc,
      (P2pFacts.lines_of_app (buffer ++ b :: chunk)).
    cbn [fst snd]. rewrite P2pFacts.handle_each_app.
    destruct (handle_each handle (lines_of (buffer ++ b :: chunk)).1 k)
      as [[[]|e] k'].
    + apply IH, P2pFacts.lines_of_tail.
    + done.
Qed.

End Loop.

(** X23: when the peer shuts the connection down, the text after the
    last newline is thrown away.  Whatever the chunking, the complete
    lines are handled in order and the loop ends as closed; the
    unfinished line in the buffer is never passed to the handler. *)
Theorem shutdown_drops_unfinished_line (handle : pystr → M unit)
    (lines : list pystr) (partial : pystr) (chunks : list bytes) (k : socket) :
  Forall (λ line, 10 ∉ line) lines →
  10 ∉ partial →
  Forall (λ chunk, chunk ≠ [] ∧ Forall (λ b, 0 ≤ b < 128) chunk) chunks →
  concat chunks = concat ((λ line, line ++ [10]) <$> lines) ++ partial →
  let r := recv_loop handle ((Some <$> chunks) ++ [Some []]) [] k in
  (r.1.1, r.2)
  = match handle_each handle lines k with
    | (Return _, k') => (PeerClosed, k')
    | (Raise e, k') => (Aborted e, k')
    end.
Proof.
  intros Hlines Hpartial Hchunks Htext r.
  pose proof (recv_loop_chunks_then handle chunks [Some []] [] k Hchunks
                ltac:(apply not_elem_of_nil)) as Hrun.
  cbn zeta in Hrun. cbn [app] in Hrun.
  rewrite Htext, P2pFacts.lines_of_frames in Hrun by done.
  cbn [fst snd] in Hrun. subst r.
  destruct (handle_each handle lines k) as [[[]|e] k'].
  - apply (f_equal (λ r : status * pystr * socket, (r.1.1, r.2))) in Hrun.
    exact Hrun.
  - destruct Hrun as [Hstatus Hsocket].
    exact (f_equal2 pair Hstatus Hsocket).
Qed.

Lemma shutdown_drops_unfinished_line_witness :
  let handle :=
    λ line, handle_json_rpc (λ _, true) Json.loads line "Server" in
  let r := recv_loop handle
             ((Some <$> [py "not-"; py "json" ++ [10] ++ py "tail"])
              ++ [Some []]) [] fresh_socket in
  (r.1.1, r.2)
  = match handle_each handle [py "not-json"] fresh_socket with
    | (Return _, k') => (PeerClosed, k')
    | (Raise e, k') => (Aborted e, k')
    end.
Proof.
  apply (shutdown_drops_unfinished_line
           (λ line, handle_json_rpc (λ _, true) Json.loads line "Server")
           [py "not-json"] (py "tail")
           [py "not-"; py "json" ++ [10] ++ py "tail"] fresh_socket).
  - apply (bool_decide_unpack _). vm_compute. reflexivity.
  - apply (bool_decide_unpack _). vm_compute. reflexivity.
  - apply (bool_decide_unpack _). vm_compute. reflexivity.
  - vm_compute. reflexivity.
Defined.

(** X24: the loop decodes every read on its own, so a character whose
    UTF-8 bytes arrive in two reads ends the connection.  For every
    two-byte character: the two bytes are its encoding and decode to it,
    yet a read that stops after the first byte makes the loop leave with
    a decoding error, before any later read and without touching the
    socket. *)
Theorem split_character_aborts (handle : pystr → M unit) (c : Z)
    (reads : list (option bytes)) (buffer : pystr) (k : socket) :
  128 ≤ c < 2048 →
  Utf8.encode [c] = Some [192 + c / 64; 128 + c mod 64]
  ∧ Utf8.decode [192 + c / 64; 128 + c mod 64] = Some [c]
  ∧ recv_loop handle (Some [192 + c / 64] :: Some [128 + c mod 64] :: reads)
      buffer k
    = (Aborted UnicodeError, buffer, k).
Proof.
  intros Hc.
  assert (2 ≤ c / 64 < 32) by (Z.div_mod_to_equations; lia).
  assert (0 ≤ c mod 64 < 64) by (apply Z.mod_pos_bound; lia).
  split; [|split].
  - cbn [Utf8.encode]. unfold Utf8.encode_char.
    destruct ((0 <=? c) && (c <? 128)) eqn:E1; [lia|].
    destruct ((128 <=? c) && (c <? 2048)) eqn:E2; [done|lia].
  - cbn [Utf8.decode]. unfold Utf8.is_cont.
    destruct ((0 <=? 192 + c / 64) && (192 + c / 64 <? 128)) eqn:E1; [lia|].
    destruct ((194 <=? 192 + c / 64) && (192 + c / 64 <? 224)) eqn:E2; [|lia].
    destruct ((128 <=? 128 + c mod 64) && (128 + c mod 64 <? 192)) eqn:E3;
      [|lia].
    simpl. do 2 f_equal. Z.div_mod_to_equations. lia.
  - cbn [recv_loop Utf8.decode].
    destruct ((0 <=? 192 + c / 64) && (192 + c / 64 <? 128)) eqn:E1; [lia|].
    destruct ((194 <=? 192 + c / 64) && (192 + c / 64 <? 224)) eqn:E2; [|lia].
    done.
Qed.

Lemma split_character_aborts_witness :
  Utf8.encode [233] = Some [192 + 233 / 64; 128 + 233 mod 64]
  ∧ Utf8.decode [192 + 233 / 64; 128 + 233 mod 64] = Some [233]
  ∧ recv_loop (λ line, handle_json_rpc (λ _, true) Json.loads line "Server")
      (Some [192 + 233 / 64] :: Some [128 + 233 mod 64] :: [])
      [] fresh_socket
    = (Aborted UnicodeError, [], fresh_socket).
Proof.
  apply (split_character_aborts
           (λ line, handle_json_rpc (λ _, true) Json.loads line "Server")
           233 [] [] fresh_socket).
  lia.
Defined.

End LoopFacts.


(** * The exchange of the demo, end to end *)

Module ExchangeFacts.
Import P2p P2pObs.

Lemma wf_hello_world n : Json.wf (hello_world (Json.JInt n)).
Proof.
  rewrite CodecFacts.hello_world_request.
  apply CodecFacts.wf_request; [| |done];
    apply CodecFacts.wf_str_printable, Utf8Facts.printable_forallb;
    reflexivity.
Qed.

Lemma wf_echo_response id params :
  Json.wf id → Json.wf params → Json.wf (echo_response id params).
Proof.
  intros Hid Hparams. split.
  - apply (bool_decide_unpack _). vm_compute. reflexivity.
  - cbn [foldr fst snd Json.wf].
    repeat split; try done;
      apply CodecFacts.wf_str_printable, Utf8Facts.printable_forallb;
      reflexivity.
Qed.

Lemma wf_hello_text : Json.wf (Json.JStr (py "hello world")).
Proof.
  apply CodecFacts.wf_str_printable, Utf8Facts.printable_forallb.
  reflexivity.
Qed.

(** A server reading the line [send_hello_world] wrote. *)
Lemma server_handles_hello n k :
  handle_json_rpc (λ _, true) Json.loads
    (Json.dumps (hello_world (Json.JInt n))) "Server" k
  = (Return (),
     wrote k [frame (echo_response (Json.JInt n)
                       (Json.JStr (py "hello world")));
              frame (hello_world (Json.JInt (n + 1)))]).
Proof.
  apply HandlerFacts.handle_json_rpc_ok.
  rewrite (HandlerFacts.handle_json_rpc_try_request (λ _, true) Json.loads _
             _ (Json.JStr (py "echo")) (Json.JStr (py "hello world"))
             (Json.JInt n)
             "Server" k (JsonRoundTrip.loads_dumps _ (wf_hello_world n)))
    by reflexivity.
  cbn [py_eq_str py_add_one]. rewrite bool_decide_eq_true_2 by done.
  rewrite HandlerFacts.py_print_accepted by apply wf_hello_text.
  rewrite HandlerFacts.send_text_frame.
  rewrite bool_decide_eq_true_2 by done.
  unfold send_hello_world. rewrite HandlerFacts.send_text_frame.
  by rewrite HandlerFacts.wrote_wrote.
Qed.

(** A client reading the same line. *)
Lemma client_handles_hello n k :
  handle_json_rpc (λ _, true) Json.loads
    (Json.dumps (hello_world (Json.JInt n))) "Client" k
  = (Return (),
     wrote k [frame (echo_response (Json.JInt n)
                       (Json.JStr (py "hello world")))]).
Proof.
  apply HandlerFacts.handle_json_rpc_ok.
  rewrite (HandlerFacts.handle_json_rpc_try_request (λ _, true) Json.loads _
             _ (Json.JStr (py "echo")) (Json.JStr (py "hello world"))
             (Json.JInt n)
             "Client" k (JsonRoundTrip.loads_dumps _ (wf_hello_world n)))
    by reflexivity.
  cbn [py_eq_str]. rewrite bool_decide_eq_true_2 by done.
  rewrite HandlerFacts.py_print_accepted by apply wf_hello_text.
  rewrite HandlerFacts.send_text_frame.
  by rewrite bool_decide_eq_false_2.
Qed.

(** A client reading the result a server wrote. *)
Lemma client_handles_result n params k :
  Json.wf params →
  handle_json_rpc (λ _, true) Json.loads
    (Json.dumps (echo_response (Json.JInt n) params)) "Client" k
  = (Return (), wrote k [frame (hello_world (Json.JInt (n + 1)))]).
Proof.
  intros Hparams. apply HandlerFacts.handle_json_rpc_ok.
  rewrite (HandlerFacts.handle_json_rpc_try_response (λ _, true) Json.loads _
             _ "Client" k
             (JsonRoundTrip.loads_dumps _
                (wf_echo_response (Json.JInt n) params I Hparams)))
    by reflexivity.
  rewrite HandlerFacts.handle_response_dict, bool_decide_eq_true_2 by done.
  change (Json.dict_get (py "id") _) with (Some (Json.JInt n)).
  cbn [py_add_one]. unfold send_hello_world.
  by rewrite HandlerFacts.send_text_frame.
Qed.

Lemma dumps_no_newline v : 10 ∉ Json.dumps v.
Proof.
  apply Utf8Facts.printable_not_newline, JsonFacts.dumps_printable.
Qed.

(** The receive loop on the frames of [messages], cut into non-empty
    chunks: if the handler accepts every line, the loop is left waiting
    with an empty buffer. *)
Lemma recv_loop_frames (handle : pystr → M unit) (messages : list Json.t)
    (chunks : list bytes) k k' :
  Forall (λ chunk, chunk ≠ []) chunks →
  concat chunks = concat (frame <$> messages) →
  handle_each handle (Json.dumps <$> messages) k = (Return (), k') →
  recv_loop handle (Some <$> chunks) [] k = (Waiting, [], k').
Proof.
  intros Hchunks Htext Hhandled.
  assert (Hlines : lines_of ([] ++ concat chunks)
                   = (Json.dumps <$> messages, [])).
  { cbn [app]. rewrite Htext.
    replace (frame <$> messages)
      with ((λ line, line ++ [10]) <$> (Json.dumps <$> messages))
      by (rewrite <- list_fmap_compose; reflexivity).
    rewrite <- (app_nil_r (concat _)).
    apply P2pFacts.lines_of_frames; [|apply not_elem_of_nil].
    apply Forall_fmap, Forall_true. intros m. apply dumps_no_newline. }
  destruct (P2pFacts.recv_loop_chunks handle chunks [] k) as [Hrun Hbuf].
  - rewrite Forall_forall in Hchunks |- *. intros chunk Hin.
    split; [by apply Hchunks|].
    assert (Hascii : Forall (λ c, 0 ≤ c < 128) (concat chunks)).
    { rewrite Htext. apply Forall_concat, Forall_fmap, Forall_true.
      intros m. apply CodecFacts.frame_ascii. }
    rewrite Forall_concat, Forall_forall in Hascii. by apply Hascii.
  - apply not_elem_of_nil.
  - rewrite Hlines in Hrun, Hbuf. cbn [fst snd] in Hrun, Hbuf.
    rewrite Hhandled in Hrun.
    destruct (recv_loop handle (Some <$> chunks) [] k) as [[s b] k''].
    cbn [fst snd] in Hrun, Hbuf. injection Hrun as -> ->.
    by rewrite Hbuf.
Qed.

(** X25: one round of the demo, on a socket whose writes succeed and
    with the parser of the model.  A server that receives the request
    [send_hello_world] writes for the id [n], cut into reads in any way,
    sends the result under [n] and then its own request under [n + 1];
    a client that receives these two messages, cut in any way, sends the
    request for [n + 1] and then the result under [n + 1].  Both loops
    are left waiting with an empty buffer, so the exchange goes on with
    growing ids for as long as the connection lasts. *)
Theorem hello_round (n : Z) (to_server to_client : list bytes)
    (ks kc : socket) :
  let hello := Json.JStr (py "hello world") in
  let replies := [frame (echo_response (Json.JInt n) hello);
                  frame (hello_world (Json.JInt (n + 1)))] in
  Forall (λ chunk, chunk ≠ []) to_server →
  concat to_server = frame (hello_world (Json.JInt n)) →
  Forall (λ chunk, chunk ≠ []) to_client →
  concat to_client = concat replies →
  handle_peer_connection (λ _, true) Json.loads (Some <$> to_server)
    "Server" ks
  = (Waiting, [], wrote ks replies)
  ∧ handle_peer_connection (λ _, true) Json.loads (Some <$> to_client)
      "Client" kc
    = (Waiting, [],
       wrote kc [frame (hello_world (Json.JInt (n + 1)));
                 frame (echo_response (Json.JInt (n + 1)) hello)]).
Proof.
  intros hello replies Hs1 Hs2 Hc1 Hc2. unfold handle_peer_connection. split.
  - apply (recv_loop_frames _ [hello_world (Json.JInt n)]); [done| |].
    + rewrite Hs2. cbn [fmap list_fmap concat]. by rewrite app_nil_r.
    + cbn [fmap list_fmap handle_each]. unfold mbind, M_bind, bind.
      by rewrite server_handles_hello.
  - apply (recv_loop_frames _ [echo_response (Json.JInt n) hello;
                               hello_world (Json.JInt (n + 1))]);
      [done|done|].
    cbn [fmap list_fmap handle_each]. unfold mbind, M_bind, bind.
    rewrite client_handles_result by apply wf_hello_text.
    rewrite client_handles_hello. cbn [ret].
    by rewrite HandlerFacts.wrote_wrote.
Qed.

Lemma hello_round_witness :
  let hello := Json.JStr (py "hello world") in
  let request := frame (hello_world (Json.JInt 1)) in
  let replies := [frame (echo_response (Json.JInt 1) hello);
                  frame (hello_world (Json.JInt (1 + 1)))] in
  handle_peer_connection (λ _, true) Json.loads
    (Some <$> [take 30 request; drop 30 request]) "Server" fresh_socket
  = (Waiting, [], wrote fresh_socket replies)
  ∧ handle_peer_connection (λ _, true) Json.loads
      (Some <$> [take 70 (concat replies); drop 70 (concat replies)])
      "Client" fresh_socket
    = (Waiting, [],
       wrote fresh_socket
         [frame (hello_world (Json.JInt (1 + 1)));
          frame (echo_response (Json.JInt (1 + 1)) hello)]).
Proof.
  apply (hello_round 1
           [take 30 (frame (hello_world (Json.JInt 1)));
            drop 30 (frame (hello_world (Json.JInt 1)))]
           [take 70 (concat [frame (echo_response (Json.JInt 1)
                                      (Json.JStr (py "hello world")));
                             frame (hello_world (Json.JInt (1 + 1)))]);
            drop 70 (concat [frame (echo_response (Json.JInt 1)
                                      (Json.JStr (py "hello world")));
                             frame (hello_world (Json.JInt (1 + 1)))])]
           fresh_socket fresh_socket).
  - apply (bool_decide_unpack _). vm_compute. reflexivity.
  - vm_compute. reflexivity.
  - apply (bool_decide_unpack _). vm_compute. reflexivity.
  - vm_compute. reflexivity.
Defined.

End ExchangeFacts.
